(** * Block-size adaptation for audio worklets

    A shallow embedding of [synth-processor.js]: the two worklet processors
    [SynthProcessor] and [RingBufferWorkletProcessor], together with the
    elastic frame buffer ([FreeQueue]) they are built on.

    Samples are only ever copied, never computed with, on the paths studied
    here; the development is therefore parametric in the sample type. *)

From Stdlib Require Import ZArith String Lia SpecFloat.
From stdpp Require Import base list.

(** * Part I: the model *)

(** ** Samples *)

(** [zero] is silence.  [undef] is what a read past the end of a sample
    sequence leaves behind once it is stored in sample storage (the host's
    [undefined], which a [Float32Array] keeps as NaN). *)
Class Sample (A : Type) := { zero : A; undef : A }.

(** ** The elastic frame buffer *)

(** Modelled from the spec: the class [FreeQueue] imported from
    [../lib/ring-buffer.js], which is not part of the sources.  The fields
    are those of the spec's FrameBuffer: per-channel sample arrays of
    capacity C, a write index, a read index and the count of frames held. *)
Record FreeQueue (A : Type) := mkFreeQueue {
  capacity : nat;
  channelData : list (list A);
  write_index : nat;
  read_index : nat;
  count : nat
}.
Arguments mkFreeQueue {A}.
Arguments capacity {A}.
Arguments channelData {A}.
Arguments write_index {A}.
Arguments read_index {A}.
Arguments count {A}.

Section FreeQueue.
Context `{Sample A}.

(** A channel is a sequence of samples; a block has one sequence per
    channel. *)
Local Abbreviation channel := (list A).
Local Abbreviation block := (list (list A)).

(** Modelled from the spec: the constructor [new FreeQueue(size, channelCount)];
    the storage starts out as silence and no frame is held. *)
Definition newFreeQueue (size channelCount : nat) : FreeQueue A :=
  {| capacity := size;
     channelData := replicate channelCount (replicate size zero);
     write_index := 0;
     read_index := 0;
     count := 0 |}.

(** Modelled from the spec: [channelCount()], a static accessor. *)
Definition channelCount (q : FreeQueue A) : nat := length (channelData q).

(** Modelled from the spec: [framesAvailable()] returns [count]. *)
Definition framesAvailable (q : FreeQueue A) : nat := count q.

(** Modelled from the spec: [isFrameAvailable(size)], the availability
    query the adapter uses to decide whether a block of [size] frames can
    be drained, i.e. [framesAvailable() ≥ size]. *)
Definition isFrameAvailable (q : FreeQueue A) (size : nat) : bool :=
  bool_decide (size ≤ framesAvailable q).

Definition sample_at (s : channel) (i : nat) : A := default undef (s !! i).

(** Modelled from the spec: the copy loop of [push] of the missing
    [FreeQueue], on one channel.  Frame [i] of the source goes to slot
    [(w + i) mod C], for [i = 0 .. n-1] in this order. *)
Fixpoint write_frames (C w : nat) (src chan : channel) (n : nat) : channel :=
  match n with
  | 0 => chan
  | S i => <[(w + i) `mod` C := sample_at src i]> (write_frames C w src chan i)
  end.

(** Modelled from the spec: [push(source, frameCount)] of the missing
    [FreeQueue].  Copies [frameCount] frames from [source] (one sequence per
    channel) starting at the write position, advances the write position
    and the count, wrapping modulo the capacity.  Overflow policy: the
    frames that do not fit into [capacity - count] are silently dropped. *)
Definition push (q : FreeQueue A) (source : block) (frameCount : nat) : FreeQueue A :=
  let n := frameCount `min` (capacity q - count q) in
  {| capacity := capacity q;
     channelData :=
       imap (λ ch chan,
               write_frames (capacity q) (write_index q)
                            (default [] (source !! ch)) chan n)
            (channelData q);
     write_index := (write_index q + n) `mod` capacity q;
     read_index := read_index q;
     count := count q + n |}.

(** Modelled from the spec: the copy loop of [pull] of the missing
    [FreeQueue], on one channel.  Destination slot [i] receives the frame
    at [(r + i) mod C] while frames are available, and silence afterwards,
    for [i = 0 .. n-1].  A store past the end of the destination is
    dropped, as for a typed array. *)
Fixpoint read_frames (C r avail : nat) (chan dst : channel) (n : nat) : channel :=
  match n with
  | 0 => dst
  | S i =>
      <[i := if decide (i < avail) then sample_at chan ((r + i) `mod` C) else zero]>
        (read_frames C r avail chan dst i)
  end.

(** Modelled from the spec: [pull(destination, frameCount)] of the missing
    [FreeQueue].  Copies [frameCount] frames from the read position into
    [destination], advances the read position and decrements the count,
    wrapping modulo the capacity; on underrun the missing frames are
    silence and the count stops at zero. *)
Definition pull (q : FreeQueue A) (destination : block) (frameCount : nat)
  : FreeQueue A * block :=
  let n := frameCount `min` count q in
  ({| capacity := capacity q;
      channelData := channelData q;
      write_index := write_index q;
      read_index := (read_index q + n) `mod` capacity q;
      count := count q - n |},
   imap (λ ch dst,
           match channelData q !! ch with
           | Some chan =>
               read_frames (capacity q) (read_index q) (count q) chan dst frameCount
           | None => dst
           end)
        destination).

(** The invariant of the spec's data model: the count never exceeds the
    capacity, the indices are taken modulo the capacity, and the write
    index runs [count] frames ahead of the read index. *)
Record wf (q : FreeQueue A) : Prop := {
  wf_capacity : 0 < capacity q;
  wf_channels : Forall (λ chan, length chan = capacity q) (channelData q);
  wf_read : read_index q < capacity q;
  wf_write : write_index q = (read_index q + count q) `mod` capacity q;
  wf_count : count q ≤ capacity q
}.

(** The frames a channel currently holds, oldest first. *)
Definition window (C r : nat) (chan : channel) (n : nat) : channel :=
  (λ i, sample_at chan ((r + i) `mod` C)) <$> seq 0 n.

Definition held (q : FreeQueue A) (chan : channel) : channel :=
  window (capacity q) (read_index q) chan (count q).

(** The first [n] frames of a source sequence, as [push] reads them. *)
Definition frames (src : channel) (n : nat) : channel :=
  (λ i, sample_at src i) <$> seq 0 n.

(** A block request for [n] frames on [c] channels. *)
Definition block_shape (c n : nat) (b : block) : Prop :=
  length b = c ∧ Forall (λ s, length s = n) b.

(** *** Runs of pushes and pulls *)

(** A sequence of pushes, each with its own source and frame count. *)
Definition push_all (q : FreeQueue A) (reqs : list (block * nat)) : FreeQueue A :=
  foldl (λ q r, push q r.1 r.2) q reqs.

Definition total_frames (reqs : list (block * nat)) : nat :=
  sum_list (snd <$> reqs).

(** What the pushes put into channel [ch], in push order. *)
Definition pushed_frames (ch : nat) (reqs : list (block * nat)) : channel :=
  concat ((λ r : block * nat, frames (default [] (r.1 !! ch)) r.2) <$> reqs).

(** The sources of a sequence of pushes, joined channel by channel in push
    order, for [c] channels. *)
Definition pushed_block (c : nat) (reqs : list (block * nat)) : block :=
  (λ ch, concat ((λ r : block * nat, default [] (r.1 !! ch)) <$> reqs)) <$> seq 0 c.

(** An interleaving of pushes of size [P] and pulls of size [Q]. *)
Inductive op : Type := OpPush (source : block) | OpPull (destination : block).

Definition run_op (P Q : nat) (q : FreeQueue A) (o : op) : FreeQueue A :=
  match o with
  | OpPush source => push q source P
  | OpPull destination => (pull q destination Q).1
  end.

Definition run (P Q : nat) (q : FreeQueue A) (ops : list op) : FreeQueue A :=
  foldl (run_op P Q) q ops.

Definition is_push (o : op) : bool :=
  match o with OpPush _ => true | OpPull _ => false end.

Definition pushes (ops : list op) : nat :=
  sum_list ((λ o, if is_push o then 1 else 0) <$> ops).
Definition pulls (ops : list op) : nat :=
  sum_list ((λ o, if is_push o then 0 else 1) <$> ops).

(** The count after each operation, by clamping at every step. *)
Definition clamp_step (P Q C : nat) (c : nat) (o : op) : nat :=
  if is_push o then (c + P) `min` C else c - Q.

(** No push of the run overflows and no pull underruns, starting from a
    count of [c] frames in a buffer of capacity [C]. *)
Fixpoint exact_run (P Q C : nat) (c : nat) (ops : list op) : bool :=
  match ops with
  | [] => true
  | o :: ops' =>
      if is_push o
      then bool_decide (c + P ≤ C) && exact_run P Q C (c + P) ops'
      else bool_decide (Q ≤ c) && exact_run P Q C (c - Q) ops'
  end.

(** The value the spec's formula gives: [N·P − M·Q] clamped to
    [[0, capacity]]. *)
Definition clamped_balance (P Q C : nat) (ops : list op) : Z :=
  (0 `max` ((Z.of_nat (pushes ops) * Z.of_nat P
             - Z.of_nat (pulls ops) * Z.of_nat Q) `min` Z.of_nat C))%Z.

End FreeQueue.

Arguments op A : clear implicits.

(** ** What a call of [process] leaves behind *)

(** The processor after the call, the output arrays as the host sees them
    afterwards, the returned flag, and the calls made on the collaborators
    in program order. *)
Record Completion (St A C : Type) := mkCompletion {
  next : St;
  outputs_after : list (list (list A));
  returned : bool;
  calls : list C
}.
Arguments mkCompletion {St A C}.
Arguments next {St A C}.
Arguments outputs_after {St A C}.
Arguments returned {St A C}.
Arguments calls {St A C}.

(** ** Values delivered on the message port *)

(** What a message can carry: the primitive values that can be cloned
    (symbols cannot) and objects of any kind.  A number is an IEEE 754
    value in the standard library's representation: a signed zero, a signed
    infinity, NaN, or a finite number given by sign, mantissa and exponent. *)
Inductive JSValue :=
| JSUndefined
| JSNull
| JSBoolean (b : bool)
| JSNumber (x : spec_float)
| JSBigInt (n : Z)
| JSString (s : string)
| JSObject.

(** The host language's truthiness test, as the conditional operator
    applies it: [undefined], [null], [false], the zeros, NaN, the BigInt
    zero and the empty string are false, everything else is true. *)
Definition ToBoolean (v : JSValue) : bool :=
  match v with
  | JSUndefined | JSNull => false
  | JSBoolean b => b
  | JSNumber (S754_zero _) | JSNumber S754_nan => false
  | JSNumber _ => true
  | JSBigInt n => negb (n =? 0)%Z
  | JSString EmptyString => false
  | JSString _ => true
  | JSObject => true
  end.

Record MessageEvent := { data : JSValue }.

(** ** SynthProcessor (registered as 'wasm-synth') *)

(** [Module.Synthesizer]: the synthesizer compiled to WebAssembly, known
    only by the three methods the processor calls. *)
Class Synthesizer (Syn A : Type) := {
  render : Syn → list A → nat → Syn * list A;
  noteOn : Syn → Z → Syn;
  noteOff : Syn → Z → Syn;
  (* rendering writes into the given array in place: its length stays *)
  render_length : ∀ s buffer n, length (render s buffer n).2 = length buffer
}.

Module SynthProcessor.

Inductive Call := Render (frames : nat) | NoteOn (note : Z) | NoteOff (note : Z).

Definition note_of (c : Call) : option Z :=
  match c with
  | Render _ => None
  | NoteOn n | NoteOff n => Some n
  end.

(** Web Audio API's render block size. *)
Definition NUM_FRAMES : nat := 128.

(** The fields keep their names from the source: [_freeQueue] holds the
    synthesizer and [_combinedBuffer] the frame buffer it renders into. *)
Record state (Syn A : Type) := mkState {
  _freeQueue : Syn;
  _combinedBuffer : FreeQueue A
}.
Arguments mkState {Syn A}.
Arguments _freeQueue {Syn A}.
Arguments _combinedBuffer {Syn A}.

Section Processor.
Context `{Sample A} `{Synthesizer Syn A}.

(** [getChannelData()] of the missing [FreeQueue] hands out its sample
    storage, the same array at every call; [setChannelData] is the
    buffer after an in-place write to that array. *)
Variable getChannelData : FreeQueue A → list A.
Variable setChannelData : FreeQueue A → list A → FreeQueue A.

Definition constructor (synthesizer : Syn) : state Syn A :=
  {| _freeQueue := synthesizer;
     _combinedBuffer := newFreeQueue NUM_FRAMES 1 |}.

(** [outputBuffer.set(source)]: copies [source] to the front of the typed
    array, and raises a RangeError when it does not fit. *)
Definition typed_array_set (target source : list A) : option (list A) :=
  if decide (length source ≤ length target)
  then Some (source ++ drop (length source) target)
  else None.

(** [process(inputs, outputs)].  [None] stands for an exception raised
    before the return statement is reached. *)
Definition process (p : state Syn A) (inputs outputs : list (list (list A)))
  : option (Completion (state Syn A) A Call) :=
  (* const outputBuffer = outputs[0][0]; *)
  output ← outputs !! 0;
  outputBuffer ← output !! 0;
  (* this._freeQueue.render(this._combinedBuffer.getChannelData(), NUM_FRAMES); *)
  let '(synth, rendered) :=
    render (_freeQueue p) (getChannelData (_combinedBuffer p)) NUM_FRAMES in
  let buffer := setChannelData (_combinedBuffer p) rendered in
  (* outputBuffer.set(this._combinedBuffer.getChannelData()); *)
  outputBuffer' ← typed_array_set outputBuffer rendered;
  (* return true; *)
  Some {| next := {| _freeQueue := synth; _combinedBuffer := buffer |};
          outputs_after := <[0 := <[0 := outputBuffer']> output]> outputs;
          returned := true;
          calls := [Render NUM_FRAMES] |}.

(** [_playTone(event)], the handler of [port.onmessage]. *)
Definition _playTone (p : state Syn A) (event : MessageEvent)
  : state Syn A * list Call :=
  let isDown := data event in
  if ToBoolean isDown
  then ({| _freeQueue := noteOn (_freeQueue p) 60;
           _combinedBuffer := _combinedBuffer p |}, [NoteOn 60])
  else ({| _freeQueue := noteOff (_freeQueue p) 60;
           _combinedBuffer := _combinedBuffer p |}, [NoteOff 60]).

End Processor.

End SynthProcessor.

(** ** RingBufferWorkletProcessor (registered as 'ring-buffer-worklet-processor') *)

(** [Module.VariableBufferKernel] and the memory of the module instance it
    lives in: the processing kernel compiled to WebAssembly.
    [memory_byteLength] is the size in bytes of
    [Module.instance.exports.memory.buffer].  [kernel_process k input c] is
    a call of [process] with the input view holding [input]: it gives the
    kernel afterwards and the content it leaves in the output view.

    The two views are flat arrays on the same memory and overlap (the
    output view starts [K*c] bytes, a quarter of the input view, into the
    input view).  The model keeps each view as a block of [c] channels of
    [K] frames and records for it the content at the one moment [process]
    reads it: the input view as [pull] has just filled it when the kernel is
    called, the output view as the kernel has just left it when [push]
    reads it.  What the overlap makes of a view between these moments is
    not recorded. *)
Class VariableBufferKernel (K A : Type) := {
  memory_byteLength : N;
  newKernel : nat → K;
  kernel_process : K → list (list A) → nat → K * list (list A)
}.

Module RingBufferWorkletProcessor.

(** The four arrays frames are copied from and to. *)
Inductive Port := HostInput | HeapInput | HeapOutput | HostOutput.

Inductive Call :=
| Push (source : Port) (frameCount : nat)
| IsFrameAvailable (size : nat)
| Pull (destination : Port) (frameCount : nat)
| KernelProcess (channelCount : nat).

Definition is_kernel_call (c : Call) : bool :=
  match c with KernelProcess _ => true | _ => false end.

Definition pushed_by (c : Call) : nat :=
  match c with Push _ n => n | _ => 0 end.

Definition pulled_by (c : Call) : nat :=
  match c with Pull _ n => n | _ => 0 end.

(** How often a call sequence invokes the kernel, and how many frames it
    asks the buffer to take in and to give out. *)
Definition kernel_invocations (cs : list Call) : nat :=
  sum_list ((λ c, if is_kernel_call c then 1 else 0) <$> cs).
Definition frames_pushed (cs : list Call) : nat := sum_list (pushed_by <$> cs).
Definition frames_pulled (cs : list Call) : nat := sum_list (pulled_by <$> cs).

(** [options.processorOptions]. *)
Record ProcessorOptions := {
  kernelBufferSize : nat;
  channelCount : nat
}.

Record state (K A : Type) := mkState {
  _kernelBufferSize : nat;
  _channelCount : nat;
  _buffer : FreeQueue A;
  _heapInputBuffer : list (list A);
  _heapOutputBuffer : list (list A);
  _kernel : K
}.
Arguments mkState {K A}.
Arguments _kernelBufferSize {K A}.
Arguments _channelCount {K A}.
Arguments _buffer {K A}.
Arguments _heapInputBuffer {K A}.
Arguments _heapOutputBuffer {K A}.
Arguments _kernel {K A}.

Section Processor.
Context `{Sample A} `{VariableBufferKernel K A}.

Local Abbreviation block := (list (list A)).

(** [new Float32Array(buffer, byteOffset, length)] raises a RangeError
    unless the byte offset is a multiple of the element size, 4, and the
    [length] elements from there on lie within the buffer. *)
Definition Float32Array_fits (byteLength : N) (byteOffset length : nat) : bool :=
  bool_decide (byteOffset `mod` 4 = 0)
  && bool_decide (N.of_nat byteOffset + 4 * N.of_nat length ≤ byteLength)%N.

(** The fields as the constructor assigns them when it runs to its end. *)
Definition built (options : ProcessorOptions) : state K A :=
  let size := kernelBufferSize options in
  let channels := channelCount options in
  {| _kernelBufferSize := size;
     _channelCount := channels;
     (* RingBuffers for input and output. *)
     _buffer := newFreeQueue size channels;
     (* For WASM memory, also for input and output. *)
     _heapInputBuffer := replicate channels (replicate size zero);
     _heapOutputBuffer := replicate channels (replicate size zero);
     (* WASM audio processing kernel. *)
     _kernel := newKernel size |}.

(** [constructor(options)].  The input view is created at byte offset 0
    and the output view at byte offset
    [kernelBufferSize * channelCount], each of
    [kernelBufferSize * channelCount] elements; [None] stands for the
    RangeError either creation can raise. *)
Definition constructor (options : ProcessorOptions) : option (state K A) :=
  let length := kernelBufferSize options * channelCount options in
  if Float32Array_fits memory_byteLength 0 length
     && Float32Array_fits memory_byteLength length length
  then Some (built options)
  else None.

Definition with_buffer (p : state K A) (b : FreeQueue A) : state K A :=
  {| _kernelBufferSize := _kernelBufferSize p;
     _channelCount := _channelCount p;
     _buffer := b;
     _heapInputBuffer := _heapInputBuffer p;
     _heapOutputBuffer := _heapOutputBuffer p;
     _kernel := _kernel p |}.

(** [this._buffer.push(input, this._kernelBufferSize);] *)
Definition host_push (p : state K A) (input : block) : state K A * list Call :=
  (with_buffer p (push (_buffer p) input (_kernelBufferSize p)),
   [Push HostInput (_kernelBufferSize p)]).

(** The conditional guarded by
    [this._buffer.isFrameAvailable(this._kernelBufferSize)]. *)
Definition kernel_drain (p : state K A) : state K A * list Call :=
  let size := _kernelBufferSize p in
  if isFrameAvailable (_buffer p) size then
    (* this._buffer.pull(this._heapInputBuffer, this._kernelBufferSize); *)
    let '(b, heapIn) := pull (_buffer p) (_heapInputBuffer p) size in
    (* this._kernel.process(..., this._channelCount); *)
    let '(k, heapOut) := kernel_process (_kernel p) heapIn (_channelCount p) in
    (* this._buffer.push(this._heapOutputBuffer, this._kernelBufferSize); *)
    ({| _kernelBufferSize := size;
        _channelCount := _channelCount p;
        _buffer := push b heapOut size;
        _heapInputBuffer := heapIn;
        _heapOutputBuffer := heapOut;
        _kernel := k |},
     [IsFrameAvailable size; Pull HeapInput size;
      KernelProcess (_channelCount p); Push HeapOutput size])
  else (p, [IsFrameAvailable size]).

(** [this._buffer.pull(output, this._kernelBufferSize);] *)
Definition host_pull (p : state K A) (output : block)
  : state K A * block * list Call :=
  let '(b, output') := pull (_buffer p) output (_kernelBufferSize p) in
  (with_buffer p b, output', [Pull HostOutput (_kernelBufferSize p)]).

(** [process(inputs, outputs, parameters)].  Only the first input and
    the first output are used; [None] stands for an exception raised
    because the host passed none. *)
Definition process (p : state K A) (inputs outputs : list block)
  : option (Completion (state K A) A Call) :=
  (* const input = inputs[0]; const output = outputs[0]; *)
  input ← inputs !! 0;
  output ← outputs !! 0;
  let '(p1, c1) := host_push p input in
  let '(p2, c2) := kernel_drain p1 in
  let '(p3, output', c3) := host_pull p2 output in
  (* return true; *)
  Some {| next := p3;
          outputs_after := <[0 := output']> outputs;
          returned := true;
          calls := c1 ++ c2 ++ c3 |}.

(** Consecutive render quanta: the processor is called once per host
    block, each time with a fresh silent output block of the size of
    the input.  The result lists, per cycle, the output block and the
    calls made. *)
Fixpoint cycles (p : state K A) (host_blocks : list block)
  : list (block * list Call) :=
  match host_blocks with
  | [] => []
  | input :: rest =>
      let output := (λ s : list A, replicate (length s) zero) <$> input in
      match process p [input] [output] with
      | Some r => (default [] (outputs_after r !! 0), calls r) :: cycles (next r) rest
      | None => []
      end
  end.

End Processor.

End RingBufferWorkletProcessor.

(** ** A concrete sample type and kernel, to run the model *)

Inductive pcm := Level (z : Z) | NaN.

#[export] Instance pcm_sample : Sample pcm := {| zero := Level 0; undef := NaN |}.

(** A kernel that is easy to recognise in the output: it raises every level
    by 1000 and counts the blocks it has processed. *)
Definition boost (x : pcm) : pcm :=
  match x with Level z => Level (z + 1000) | NaN => NaN end.

#[export] Instance boost_kernel : VariableBufferKernel nat pcm :=
  {| memory_byteLength := 16777216;
     newKernel := λ _, 0;
     kernel_process := λ k (heapIn : list (list pcm)) _,
       (S k, (λ s : list pcm, boost <$> s) <$> heapIn) |}.

(** A synthesizer that remembers the calls made on it and renders a
    constant level. *)
#[export] Instance log_synthesizer : Synthesizer (list SynthProcessor.Call) pcm :=
  {| render := λ log (buffer : list pcm) n,
       (log ++ [SynthProcessor.Render n], replicate (length buffer) (Level 7));
     noteOn := λ log n, log ++ [SynthProcessor.NoteOn n];
     noteOff := λ log n, log ++ [SynthProcessor.NoteOff n];
     render_length := λ _ buffer _, length_replicate (length buffer) (Level 7) |}.

(** The storage of the first channel, as the view [getChannelData()] hands
    out for the one-channel buffer of the synthesizer. *)
Definition first_channel {A} (q : FreeQueue A) : list A :=
  default [] (channelData q !! 0).

Definition set_first_channel {A} (q : FreeQueue A) (v : list A) : FreeQueue A :=
  {| capacity := capacity q;
     channelData := <[0 := v]> (channelData q);
     write_index := write_index q;
     read_index := read_index q;
     count := count q |}.

(** The host block [start, start+1, ..., start+n-1] on one channel. *)
Definition ramp (start : Z) (n : nat) : list (list pcm) :=
  [(λ i, Level (start + Z.of_nat i)) <$> seq 0 n].

Definition silence (n : nat) : list (list pcm) := [replicate n (Level 0)].

(** A ring-buffer processor with the boosting kernel, as the constructor
    builds it when it does not raise. *)
Definition fresh (size channels : nat) : RingBufferWorkletProcessor.state nat pcm :=
  RingBufferWorkletProcessor.built
    {| RingBufferWorkletProcessor.kernelBufferSize := size;
       RingBufferWorkletProcessor.channelCount := channels |}.

(** The same processor around a buffer of another capacity. *)
Definition roomy (size channels room : nat) : RingBufferWorkletProcessor.state nat pcm :=
  RingBufferWorkletProcessor.with_buffer (fresh size channels) (newFreeQueue room channels).

(** Four host blocks of 128 frames carrying the levels 0 .. 511. *)
Definition four_host_blocks : list (list (list pcm)) :=
  [ramp 0 128; ramp 128 128; ramp 256 128; ramp 384 128].

(** A buffer of capacity 4 whose indices are about to wrap and whose
    storage still carries old samples. *)
Definition stale_queue : FreeQueue pcm :=
  {| capacity := 4;
     channelData := [[Level 9; Level 9; Level 9; Level 9]];
     write_index := 3;
     read_index := 3;
     count := 0 |}.


(** ** Reference behaviour of the ring-buffer processor *)

Section Reference.
Context `{Sample A} `{VariableBufferKernel K A}.

(** The first [n] frames of the first [c] channels of a block, padded with
    [undef] where the block is short: what a push of [n] frames reads. *)
Definition staged (c n : nat) (source : list (list A)) : list (list A) :=
  (λ ch, frames (default [] (source !! ch)) n) <$> seq 0 c.

(** A destination after [n] frames of [source] were copied into its first
    [c] channels: slots past the end of a channel are dropped, slots past
    [n] and channels past [c] keep their content. *)
Definition delivered (c n : nat) (source destination : list (list A))
  : list (list A) :=
  imap (λ ch dst,
          if decide (ch < c)
          then take (length dst) (frames (default [] (source !! ch)) n) ++ drop n dst
          else dst)
       destination.

(** The state [process] starts from and returns to: an empty buffer with
    room for one kernel block, one channel array per configured channel,
    and a staging area of K frames per channel. *)
Record steady (p : RingBufferWorkletProcessor.state K A) : Prop := {
  steady_wf : wf (RingBufferWorkletProcessor._buffer p);
  steady_empty : count (RingBufferWorkletProcessor._buffer p) = 0;
  steady_room :
    RingBufferWorkletProcessor._kernelBufferSize p
      ≤ capacity (RingBufferWorkletProcessor._buffer p);
  steady_channels :
    length (channelData (RingBufferWorkletProcessor._buffer p))
      = RingBufferWorkletProcessor._channelCount p;
  steady_staging :
    block_shape (RingBufferWorkletProcessor._channelCount p)
                (RingBufferWorkletProcessor._kernelBufferSize p)
                (RingBufferWorkletProcessor._heapInputBuffer p)
}.

(** The kernel applied to every host block on its own: the block is cut or
    padded to [size] frames on [c] channels, and the kernel's output is
    copied over a silent block of the shape of the input. *)
Fixpoint direct_cycles (c size : nat) (k : K) (host_blocks : list (list (list A)))
  : list (list (list A)) :=
  match host_blocks with
  | [] => []
  | input :: rest =>
      let kh := kernel_process k (staged c size input) c in
      delivered c size kh.2 ((λ s : list A, replicate (length s) zero) <$> input)
        :: direct_cycles c size kh.1 rest
  end.

End Reference.

(** ** The message port of the synthesizer *)

Section Messages.
Context {A : Type} `{Synthesizer Syn A}.

(** The messages of the main thread, handled one by one in the order of
    arrival by the handler installed on [port.onmessage]. *)
Definition onmessage (p : SynthProcessor.state Syn A) (events : list MessageEvent)
  : SynthProcessor.state Syn A * list SynthProcessor.Call :=
  foldl (λ acc event,
           let '(p', cs) := SynthProcessor._playTone acc.1 event in
           (p', acc.2 ++ cs))
        (p, []) events.

End Messages.

(** The payloads the host language takes for false. *)
Definition falsy : list JSValue :=
  [JSUndefined; JSNull; JSBoolean false;
   JSNumber (S754_zero false); JSNumber (S754_zero true); JSNumber S754_nan;
   JSBigInt 0; JSString EmptyString].

(** * Part II: properties *)

(** ** Index arithmetic of a circular buffer *)

Lemma mod_offset_inj (C w i j : nat) :
  i < C → j < C → (w + i) `mod` C = (w + j) `mod` C → i = j.
Proof.
  intros Hi Hj E.
  pose proof (Nat.div_mod_eq (w + i) C) as E1.
  pose proof (Nat.div_mod_eq (w + j) C) as E2.
  rewrite E in E1.
  destruct (lt_eq_lt_dec ((w + i) `div` C) ((w + j) `div` C)) as [[?|?]|?]; nia.
Qed.

Lemma mod_advance (C r c k : nat) :
  ((r + c) `mod` C + k) `mod` C = (r + (c + k)) `mod` C.
Proof. rewrite Nat.Div0.add_mod_idemp_l. f_equal. lia. Qed.

Lemma mod_wrap_back (C r c i : nat) :
  c ≤ C → (r + i) `mod` C = ((r + c) `mod` C + (C - c + i)) `mod` C.
Proof.
  intros Hc. rewrite mod_advance.
  replace (r + (c + (C - c + i))) with (r + i + 1 * C) by lia.
  by rewrite Nat.Div0.mod_add.
Qed.


Section FreeQueueFacts.
Context `{Sample A}.
Local Abbreviation channel := (list A).
Local Abbreviation block := (list (list A)).

(** *** The copy loops *)

Lemma length_write_frames C w src chan n :
  length (write_frames C w src chan n) = length chan.
Proof. induction n as [|n IH]; [done|]. cbn [write_frames read_frames]. by rewrite length_insert. Qed.

Lemma lookup_write_frames C w src chan n j :
  n ≤ C → length chan = C → j < C →
  write_frames C w src chan n !! ((w + j) `mod` C) =
    if decide (j < n) then Some (sample_at src j)
    else chan !! ((w + j) `mod` C).
Proof.
  intros Hn Hlen Hj. induction n as [|n IH]; cbn [write_frames].
  { destruct (decide (j < 0)); [lia|done]. }
  destruct (decide (j = n)) as [->|Hne].
  - clear IH. rewrite list_lookup_insert_eq.
    + destruct (decide (n < S n)); [done|lia].
    + rewrite length_write_frames, Hlen. apply Nat.mod_upper_bound. lia.
  - rewrite list_lookup_insert_ne.
    + rewrite IH by lia.
      destruct (decide (j < n)), (decide (j < S n)); done || lia.
    + intros E. apply mod_offset_inj in E; lia.
Qed.

Lemma length_read_frames C r avail chan dst n :
  length (read_frames C r avail chan dst n) = length dst.
Proof. induction n as [|n IH]; [done|]. cbn [write_frames read_frames]. by rewrite length_insert. Qed.

Lemma lookup_read_frames C r avail chan dst n i :
  read_frames C r avail chan dst n !! i =
    if decide (i < n ∧ i < length dst)
    then Some (if decide (i < avail) then sample_at chan ((r + i) `mod` C) else zero)
    else dst !! i.
Proof.
  induction n as [|n IH]; cbn [read_frames].
  { destruct (decide (i < 0 ∧ i < length dst)); [lia|done]. }
  rewrite list_lookup_insert, length_read_frames, IH. clear IH.
  destruct (decide (n = i ∧ n < length dst)) as [[-> ?]|?].
  - destruct (decide (i < S i ∧ i < length dst)); [done|lia].
  - destruct (decide (i < n ∧ i < length dst)),
      (decide (i < S n ∧ i < length dst)); done || lia.
Qed.

Lemma length_window C r chan n : length (window C r chan n) = n.
Proof. unfold window. by rewrite length_fmap, length_seq. Qed.

Lemma lookup_window C r chan n i :
  window C r chan n !! i =
    if decide (i < n) then Some (sample_at chan ((r + i) `mod` C)) else None.
Proof.
  unfold window. rewrite list_lookup_fmap. case_decide.
  - by rewrite lookup_seq_lt.
  - by rewrite lookup_seq_ge by lia.
Qed.

Lemma length_frames src n : length (frames src n) = n.
Proof. unfold frames. by rewrite length_fmap, length_seq. Qed.

Lemma lookup_frames src n i :
  frames src n !! i = if decide (i < n) then Some (sample_at src i) else None.
Proof.
  unfold frames. rewrite list_lookup_fmap. case_decide.
  - by rewrite lookup_seq_lt.
  - by rewrite lookup_seq_ge by lia.
Qed.

Lemma frames_take src n : n ≤ length src → frames src n = take n src.
Proof.
  intros Hn. apply list_eq; intros i.
  rewrite lookup_frames, lookup_take. case_decide; [|done].
  unfold sample_at. destruct (src !! i) eqn:E; [done|].
  apply lookup_ge_None in E. lia.
Qed.

(** *** Reading a window of the circular storage *)

Lemma window_write_frames C r c src chan n :
  c ≤ C → n ≤ C - c → length chan = C →
  window C r (write_frames C ((r + c) `mod` C) src chan n) (c + n) =
    window C r chan c ++ frames src n.
Proof.
  intros Hc Hn Hlen. apply list_eq; intros i.
  rewrite lookup_app, !lookup_window, length_window.
  destruct (decide (i < c)) as [Hi|Hi].
  - destruct (decide (i < c + n)); [|lia]. f_equal. unfold sample_at. f_equal.
    rewrite (mod_wrap_back C r c i) by done.
    rewrite lookup_write_frames by lia.
    destruct (decide (C - c + i < n)); [lia|done].
  - rewrite lookup_frames.
    destruct (decide (i < c + n)), (decide (i - c < n)); try lia; [|done].
    f_equal. unfold sample_at at 1.
    replace (r + i) with (r + (c + (i - c))) by lia.
    rewrite <- mod_advance, lookup_write_frames by lia.
    destruct (decide (i - c < n)); [done|lia].
Qed.

Lemma read_frames_window C r avail chan dst n :
  read_frames C r avail chan dst n =
    take (length dst) (window C r chan (n `min` avail) ++ replicate (n - avail) zero)
      ++ drop n dst.
Proof.
  apply list_eq; intros i.
  rewrite lookup_read_frames, lookup_app, lookup_take, lookup_app, lookup_window.
  rewrite length_take, length_app, length_window, length_replicate, lookup_drop.
  destruct (decide (i < n ∧ i < length dst)) as [[Hn Hd]|Hno].
  - destruct (decide (i < length dst)); [|lia].
    destruct (decide (i < avail)).
    + destruct (decide (i < n `min` avail)); [done|lia].
    + destruct (decide (i < n `min` avail)); [lia|].
      rewrite lookup_replicate_2 by lia. done.
  - destruct (decide (i < length dst)) as [Hd|Hd].
    + destruct (decide (i < n `min` avail)); [lia|].
      rewrite (lookup_ge_None_2 (replicate _ _)) by (rewrite length_replicate; lia).
      f_equal. lia.
    + rewrite !lookup_ge_None_2 by lia. done.
Qed.

Lemma window_advance C r chan c n :
  window C ((r + n `min` c) `mod` C) chan (c - n `min` c) = drop n (window C r chan c).
Proof.
  apply list_eq; intros i.
  rewrite lookup_drop, !lookup_window.
  destruct (decide (i < c - n `min` c)), (decide (n + i < c)); try lia; [|done].
  rewrite mod_advance. do 3 f_equal. lia.
Qed.

(** *** The invariant *)

Lemma wf_newFreeQueue size c : 0 < size → wf (newFreeQueue size c).
Proof.
  intros Hs. split; simpl; try lia.
  - apply Forall_replicate. by rewrite length_replicate.
  - symmetry. apply Nat.mod_small. lia.
Qed.

Lemma wf_push q source n : wf q → wf (push q source n).
Proof.
  intros [Hc Hch Hr Hw Hn]. split; simpl; try done; try lia.
  - apply Forall_lookup. intros ch chan.
    rewrite list_lookup_imap. intros Hl.
    apply fmap_Some in Hl as (chan0 & Hl & ->).
    rewrite length_write_frames.
    by apply (Forall_lookup_1 _ _ _ _ Hch Hl).
  - rewrite Hw, mod_advance. f_equal; lia.
Qed.

Lemma wf_pull q destination n : wf q → wf (pull q destination n).1.
Proof.
  intros [Hc Hch Hr Hw Hn]. split; simpl; try done; try lia.
  - by apply Nat.mod_upper_bound, Nat.neq_0_lt_0.
  - rewrite Hw, mod_advance. f_equal; lia.
Qed.

(** *** One push, one pull *)

Lemma channelData_push q source n ch chan :
  channelData q !! ch = Some chan →
  channelData (push q source n) !! ch =
    Some (write_frames (capacity q) (write_index q) (default [] (source !! ch))
                       chan (n `min` (capacity q - count q))).
Proof. intros Hl. simpl. by rewrite list_lookup_imap, Hl. Qed.

Lemma held_push q source n ch chan :
  wf q → n ≤ capacity q - count q → channelData q !! ch = Some chan →
  ∃ chan', channelData (push q source n) !! ch = Some chan' ∧
           held (push q source n) chan' =
             held q chan ++ frames (default [] (source !! ch)) n.
Proof.
  intros Hwf Hn Hl. eexists. split; [by apply channelData_push|].
  destruct Hwf as [Hc Hch Hr Hw Hcnt]. unfold held. simpl.
  rewrite Nat.min_l, Hw by done.
  apply window_write_frames; [done..|].
  by apply (Forall_lookup_1 _ _ _ _ Hch Hl).
Qed.

Lemma pull_destination q destination n ch chan dst :
  channelData q !! ch = Some chan → destination !! ch = Some dst →
  (pull q destination n).2 !! ch =
    Some (take (length dst) (take n (held q chan) ++ replicate (n - count q) zero)
            ++ drop n dst).
Proof.
  intros Hl Hd. simpl. rewrite list_lookup_imap, Hd. simpl. rewrite Hl.
  rewrite read_frames_window. do 3 f_equal.
  unfold held, window. by rewrite <- fmap_take, take_seq.
Qed.

Lemma held_pull q destination n chan :
  held (pull q destination n).1 chan = drop n (held q chan).
Proof. unfold held. simpl. apply window_advance. Qed.

Lemma length_pull q destination n :
  length (pull q destination n).2 = length destination.
Proof. simpl. by rewrite length_imap. Qed.

(** *** Runs of pushes *)

Lemma total_frames_cons (source : block) n reqs :
  total_frames ((source, n) :: reqs) = n + total_frames reqs.
Proof. done. Qed.

Lemma held_push_all reqs : ∀ q ch chan,
  wf q → total_frames reqs ≤ capacity q - count q →
  channelData q !! ch = Some chan →
  ∃ chan', channelData (push_all q reqs) !! ch = Some chan' ∧
           held (push_all q reqs) chan' = held q chan ++ pushed_frames ch reqs.
Proof.
  induction reqs as [|[source n] reqs IH]; intros q ch chan Hwf Htot Hl.
  { exists chan. split; [done|]. unfold pushed_frames. simpl. by rewrite app_nil_r. }
  rewrite total_frames_cons in Htot.
  destruct (held_push q source n ch chan) as (chan1 & Hl1 & Hh1); [done|lia|done|].
  destruct (IH (push q source n) ch chan1) as (chan' & Hl' & Hh').
  - by apply wf_push.
  - cbn [push capacity count]. lia.
  - done.
  - exists chan'. split; [done|].
    unfold push_all in *. simpl. rewrite Hh', Hh1.
    unfold pushed_frames. simpl. by rewrite app_assoc.
Qed.

Lemma count_push_all reqs : ∀ q,
  total_frames reqs ≤ capacity q - count q →
  count (push_all q reqs) = count q + total_frames reqs
  ∧ capacity (push_all q reqs) = capacity q
  ∧ channelCount (push_all q reqs) = channelCount q.
Proof.
  induction reqs as [|[source n] reqs IH]; intros q Htot.
  { unfold total_frames. simpl. split; [lia|done]. }
  rewrite total_frames_cons in *.
  destruct (IH (push q source n)) as (Hc & Hcap & Hch); [cbn [push capacity count]; lia|].
  unfold push_all in *. simpl foldl. rewrite Hc, Hcap, Hch.
  unfold channelCount. cbn [push capacity count channelData].
  rewrite length_imap. split_and!; [lia|done..].
Qed.

Lemma length_pushed_frames ch reqs :
  length (pushed_frames ch reqs) = total_frames reqs.
Proof.
  induction reqs as [|[s n] reqs IH]; [done|].
  rewrite total_frames_cons, <- IH. unfold pushed_frames.
  rewrite fmap_cons, concat_cons, length_app, length_frames. done.
Qed.

Lemma pushed_frames_shaped c ch reqs :
  ch < c →
  Forall (λ r : block * nat, block_shape c r.2 r.1) reqs →
  pushed_frames ch reqs = concat ((λ r : block * nat, default [] (r.1 !! ch)) <$> reqs).
Proof.
  intros Hch Hall. unfold pushed_frames. f_equal.
  apply list_fmap_ext. intros i [source n] Hi. simpl.
  apply (Forall_lookup_1 _ _ _ _ Hall) in Hi as [Hlen Hsh]. simpl in Hlen, Hsh.
  destruct (source !! ch) as [s|] eqn:Hs; simpl.
  - apply (Forall_lookup_1 _ _ _ _ Hsh) in Hs.
    rewrite frames_take by lia. apply take_ge. lia.
  - apply lookup_ge_None in Hs. lia.
Qed.

(** C1.  Lossless FIFO round trip: from an empty buffer, after any
    sequence of pushes whose frame counts add up to at most the capacity,
    one pull of the total number of frames fills the destination, for
    every channel, with exactly the pushed frames in push order, and
    leaves the buffer empty. *)
Theorem FreeQueue_fifo_round_trip (q : FreeQueue A) reqs destination :
  wf q → count q = 0 →
  Forall (λ r : block * nat, block_shape (channelCount q) r.2 r.1) reqs →
  total_frames reqs ≤ capacity q →
  block_shape (channelCount q) (total_frames reqs) destination →
  (pull (push_all q reqs) destination (total_frames reqs)).2
    = pushed_block (channelCount q) reqs
  ∧ framesAvailable (pull (push_all q reqs) destination (total_frames reqs)).1 = 0.
Proof.
  intros Hwf Hempty Hreqs Htot [Hdlen Hdsh].
  destruct (count_push_all reqs q) as (Hc & Hcap & Hch); [lia|].
  split; [|unfold framesAvailable; simpl; lia].
  apply list_eq; intros ch. unfold pushed_block.
  rewrite list_lookup_fmap.
  destruct (decide (ch < channelCount q)) as [Hlt|Hge].
  - rewrite lookup_seq_lt by done. cbn [fmap option_fmap option_map Nat.add].
    destruct (lookup_lt_is_Some_2 (channelData q) ch Hlt) as [chan Hl].
    destruct (lookup_lt_is_Some_2 destination ch) as [dst Hd]; [lia|].
    destruct (held_push_all reqs q ch chan) as (chan' & Hl' & Hh'); [done|lia|done|].
    rewrite (pull_destination _ _ _ _ _ _ Hl' Hd). f_equal.
    apply (Forall_lookup_1 _ _ _ _ Hdsh) in Hd.
    rewrite Hh', Hc, Hempty, Hd. unfold held at 1, window. rewrite Hempty. simpl.
    pose proof (length_pushed_frames ch reqs) as Hlen.
    rewrite (pushed_frames_shaped _ _ _ Hlt Hreqs) in *.
    rewrite Nat.sub_diag. simpl. rewrite app_nil_r.
    rewrite drop_ge by lia. rewrite app_nil_r.
    rewrite !take_ge by (rewrite ?length_take; lia). done.
  - rewrite lookup_seq_ge by lia. cbn [fmap option_fmap option_map].
    apply lookup_ge_None. rewrite length_pull. lia.
Qed.

(** *** Underrun *)

Lemma held_stored q ch chan :
  wf q → channelData q !! ch = Some chan → Forall (λ x, x ∈ chan) (held q chan).
Proof.
  intros [Hc Hch Hr Hw Hn] Hl. apply Forall_lookup. intros i x.
  unfold held. rewrite lookup_window.
  destruct (decide (i < count q)); [|done]. intros [= <-].
  apply (Forall_lookup_1 _ _ _ _ Hch) in Hl.
  destruct (lookup_lt_is_Some_2 chan ((read_index q + i) `mod` capacity q)) as [x Hx].
  { rewrite Hl. apply Nat.mod_upper_bound. lia. }
  unfold sample_at. rewrite Hx. simpl. by apply list_elem_of_lookup_2 in Hx.
Qed.

(** C2.  Silence-fill on underrun: when more frames are requested than
    the buffer holds, the first [frameCount] slots of every destination
    channel (as many as the destination has) receive the held frames,
    oldest first, followed by zeros; slots beyond [frameCount] keep their
    content.  The held frames are samples stored in the channel, so
    nothing else reaches the destination, and the buffer ends up empty. *)
Theorem FreeQueue_pull_underrun (q : FreeQueue A) destination frameCount ch chan dst :
  wf q → count q < frameCount →
  channelData q !! ch = Some chan → destination !! ch = Some dst →
  (pull q destination frameCount).2 !! ch =
    Some (take (length dst) (held q chan ++ replicate (frameCount - count q) zero)
            ++ drop frameCount dst)
  ∧ length (held q chan) = framesAvailable q
  ∧ Forall (λ x, x ∈ chan) (held q chan)
  ∧ framesAvailable (pull q destination frameCount).1 = 0.
Proof.
  intros Hwf Hunder Hl Hd. split_and!.
  - rewrite (pull_destination _ _ _ _ _ _ Hl Hd).
    rewrite (take_ge (held q chan)); [done|].
    unfold held. rewrite length_window. lia.
  - unfold held. by rewrite length_window.
  - by eapply held_stored.
  - unfold framesAvailable. simpl. lia.
Qed.

(** *** Frame accounting *)

Lemma push_zero q source : wf q → push q source 0 = q.
Proof.
  intros [Hc Hch Hr Hw Hn]. destruct q as [C chans w r c]. simpl in *.
  unfold push. simpl. f_equal.
  - apply list_eq. intros ch. rewrite list_lookup_imap.
    by destruct (chans !! ch).
  - rewrite Nat.add_0_r, Hw. apply Nat.Div0.mod_mod.
  - lia.
Qed.

Lemma pull_zero q destination : wf q → pull q destination 0 = (q, destination).
Proof.
  intros [Hc Hch Hr Hw Hn]. destruct q as [C chans w r c]. simpl in *.
  unfold pull. simpl. f_equal.
  - f_equal.
    + rewrite Nat.add_0_r. apply Nat.mod_small. lia.
    + lia.
  - apply list_eq. intros ch. rewrite list_lookup_imap.
    destruct (destination !! ch); [|done]. simpl. by destruct (chans !! ch).
Qed.

Lemma run_op_count P Q q o :
  count q ≤ capacity q →
  count (run_op P Q q o) = clamp_step P Q (capacity q) (count q) o
  ∧ capacity (run_op P Q q o) = capacity q.
Proof. intros Hc. destruct o; unfold clamp_step; simpl; split; lia. Qed.

Lemma clamp_step_le P Q C c (o : op A) : c ≤ C → clamp_step P Q C c o ≤ C.
Proof. intros Hc. unfold clamp_step. destruct (is_push o); lia. Qed.

Lemma run_count P Q ops : ∀ q,
  count q ≤ capacity q →
  count (run P Q q ops) = foldl (clamp_step P Q (capacity q)) (count q) ops
  ∧ count (run P Q q ops) ≤ capacity q.
Proof.
  induction ops as [|o ops IH]; intros q Hc; [done|].
  destruct (run_op_count P Q q o Hc) as [Hcnt Hcap].
  unfold run in *. cbn [foldl].
  destruct (IH (run_op P Q q o)) as [E Hle].
  { rewrite Hcnt, Hcap. by apply clamp_step_le. }
  rewrite Hcnt, Hcap in E. rewrite Hcap in Hle. done.
Qed.

Lemma pushes_cons (o : op A) ops :
  pushes (o :: ops) = (if is_push o then 1 else 0) + pushes ops.
Proof. done. Qed.

Lemma pulls_cons (o : op A) ops :
  pulls (o :: ops) = (if is_push o then 0 else 1) + pulls ops.
Proof. done. Qed.

Lemma exact_run_balance P Q C (ops : list (op A)) : ∀ c,
  exact_run P Q C c ops = true →
  foldl (clamp_step P Q C) c ops + pulls ops * Q = c + pushes ops * P.
Proof.
  induction ops as [|o ops IH]; intros c Hex.
  { unfold pulls, pushes. simpl. lia. }
  rewrite pushes_cons, pulls_cons. cbn [exact_run foldl] in *.
  unfold clamp_step at 2. destruct (is_push o).
  - apply andb_prop in Hex as [Hfit Hex]. apply bool_decide_eq_true in Hfit.
    rewrite Nat.min_l by done. specialize (IH _ Hex). lia.
  - apply andb_prop in Hex as [Hfit Hex]. apply bool_decide_eq_true in Hfit.
    specialize (IH _ Hex). lia.
Qed.

(** C7 (as amended).  The count of held frames is clamped at every
    operation, not once at the end: each push of [P] frames takes it to
    [min (count + P) capacity] and each pull of [Q] frames to
    [max (count − Q) 0].  When no push of the interleaving overflows and
    no pull underruns, the final value is the initial count plus
    [N·P − M·Q].  A zero-length push and a zero-length pull leave the
    buffer (and the destination) unchanged. *)
Theorem FreeQueue_count_clamped_stepwise (q : FreeQueue A) P Q ops :
  wf q →
  framesAvailable (run P Q q ops)
    = foldl (clamp_step P Q (capacity q)) (framesAvailable q) ops
  ∧ framesAvailable (run P Q q ops) ≤ capacity q
  ∧ (exact_run P Q (capacity q) (framesAvailable q) ops = true →
     framesAvailable (run P Q q ops) + pulls ops * Q
       = framesAvailable q + pushes ops * P)
  ∧ (∀ source, push q source 0 = q)
  ∧ (∀ destination, pull q destination 0 = (q, destination)).
Proof.
  intros Hwf. pose proof (wf_count _ Hwf) as Hc.
  destruct (run_count P Q ops q Hc) as [E Hle]. unfold framesAvailable.
  split_and!; try done.
  - intros Hex. rewrite E. by apply exact_run_balance.
  - intros source. by apply push_zero.
  - intros destination. by apply pull_zero.
Qed.

End FreeQueueFacts.

(** ** SynthProcessor *)

Section SynthProcessorFacts.
Context `{Sample A} `{Synthesizer Syn A}.
Variable getChannelData : FreeQueue A → list A.
Variable setChannelData : FreeQueue A → list A → FreeQueue A.

Local Abbreviation process := (SynthProcessor.process getChannelData setChannelData).

Lemma SynthProcessor_process_returned p inputs outputs r :
  process p inputs outputs = Some r → returned r = true.
Proof.
  unfold SynthProcessor.process. intros Hr.
  destruct (outputs !! 0) as [output|]; [|done]. simpl in Hr.
  destruct (output !! 0) as [outputBuffer|]; [|done]. simpl in Hr.
  destruct (render _ _ _) as [synth rendered].
  destruct (SynthProcessor.typed_array_set outputBuffer rendered); [|done].
  simpl in Hr. by injection Hr as <-.
Qed.

Lemma SynthProcessor_process_completes p inputs outputs output outputBuffer :
  outputs !! 0 = Some output → output !! 0 = Some outputBuffer →
  length (getChannelData (SynthProcessor._combinedBuffer p)) ≤ length outputBuffer →
  is_Some (process p inputs outputs).
Proof.
  intros Ho Hb Hfit. unfold SynthProcessor.process. rewrite Ho. simpl.
  rewrite Hb. simpl.
  pose proof (render_length (SynthProcessor._freeQueue p)
                (getChannelData (SynthProcessor._combinedBuffer p))
                SynthProcessor.NUM_FRAMES) as Hlen.
  destruct (render _ _ _) as [synth rendered]. simpl in Hlen.
  unfold SynthProcessor.typed_array_set.
  destruct (decide (length rendered ≤ length outputBuffer)); [by eexists|lia].
Qed.

(** C10.  Whatever the message carries, the handler makes exactly one
    call on the synthesizer: [noteOn(60)] when the payload is truthy and
    [noteOff(60)] when it is falsy; the note number is 60 in both cases. *)
Theorem SynthProcessor_playTone_note_60 (p : SynthProcessor.state Syn A) event :
  (SynthProcessor._playTone p event).2
    = [if ToBoolean (data event)
       then SynthProcessor.NoteOn 60 else SynthProcessor.NoteOff 60]
  ∧ SynthProcessor._freeQueue (SynthProcessor._playTone p event).1
    = (if ToBoolean (data event)
       then noteOn (SynthProcessor._freeQueue p) 60
       else noteOff (SynthProcessor._freeQueue p) 60)
  ∧ Forall (λ c, SynthProcessor.note_of c = Some 60%Z)
           (SynthProcessor._playTone p event).2.
Proof.
  unfold SynthProcessor._playTone.
  destruct (ToBoolean (data event)); simpl; split_and!; try done;
    by apply Forall_singleton.
Qed.

End SynthProcessorFacts.

(** ** RingBufferWorkletProcessor *)

Section RingBufferFacts.
Context `{Sample A} `{VariableBufferKernel K A}.
Import RingBufferWorkletProcessor.

Local Abbreviation block := (list (list A)).

Lemma process_unfold (p : state K A) inputs outputs input output :
  inputs !! 0 = Some input → outputs !! 0 = Some output →
  process p inputs outputs =
    Some {| next := (host_pull (kernel_drain (host_push p input).1).1 output).1.1;
            outputs_after :=
              <[0 := (host_pull (kernel_drain (host_push p input).1).1 output).1.2]>
                outputs;
            returned := true;
            calls := (host_push p input).2
                       ++ (kernel_drain (host_push p input).1).2
                       ++ (host_pull (kernel_drain (host_push p input).1).1 output).2 |}.
Proof.
  intros Hi Ho. unfold process. rewrite Hi, Ho.
  cbn [mbind option_bind]. unfold host_pull.
  destruct (host_push p input) as [p1 c1]. cbn [fst snd].
  destruct (kernel_drain p1) as [p2 c2]. cbn [fst snd].
  by destruct (pull (_buffer p2) output (_kernelBufferSize p2)).
Qed.

Lemma process_returned (p : state K A) inputs outputs r :
  process p inputs outputs = Some r → returned r = true.
Proof.
  intros Hr.
  destruct (inputs !! 0) as [input|] eqn:Hi;
    [|by unfold process in Hr; rewrite Hi in Hr].
  destruct (outputs !! 0) as [output|] eqn:Ho;
    [|by unfold process in Hr; rewrite Hi, Ho in Hr].
  rewrite (process_unfold _ _ _ _ _ Hi Ho) in Hr. by injection Hr as <-.
Qed.

Lemma kernel_drain_size (p : state K A) :
  _kernelBufferSize (kernel_drain p).1 = _kernelBufferSize p.
Proof.
  unfold kernel_drain. destruct (isFrameAvailable _ _); [|done].
  destruct (pull _ _ _) as [b heapIn]. by destruct (kernel_process _ _ _).
Qed.

Lemma kernel_drain_calls (p : state K A) :
  (kernel_drain p).2 =
    IsFrameAvailable (_kernelBufferSize p) ::
    (if isFrameAvailable (_buffer p) (_kernelBufferSize p)
     then [Pull HeapInput (_kernelBufferSize p); KernelProcess (_channelCount p);
           Push HeapOutput (_kernelBufferSize p)]
     else []).
Proof.
  unfold kernel_drain. destruct (isFrameAvailable _ _); [|done].
  destruct (pull _ _ _) as [b heapIn]. by destruct (kernel_process _ _ _).
Qed.

Lemma kernel_drain_count (p : state K A) :
  count (_buffer p) ≤ capacity (_buffer p) →
  count (_buffer (kernel_drain p).1) = count (_buffer p).
Proof.
  intros Hc. unfold kernel_drain.
  destruct (isFrameAvailable _ _) eqn:Hav; [|done].
  apply bool_decide_eq_true in Hav. unfold framesAvailable in Hav.
  destruct (pull _ _ _) as [b heapIn] eqn:Hpull.
  destruct (kernel_process _ _ _) as [k heapOut].
  injection Hpull as <- <-. simpl. lia.
Qed.

(** C3 (as amended).  The kernel-drain step is one conditional, not a
    loop.  When [framesAvailable() ≥ K] it pulls the K oldest frames of
    every channel into the staging area, invokes the kernel once with the
    staging area holding exactly these K frames per channel, and pushes the
    kernel's output back into the same buffer with frame count K; otherwise
    it only makes the availability query.  Either way the count of frames
    in the buffer is unchanged by the step, so K or more frames are still
    available after a step in which the kernel ran. *)
Theorem kernel_drain_single_conditional (p : state K A) :
  wf (_buffer p) →
  block_shape (length (channelData (_buffer p))) (_kernelBufferSize p)
              (_heapInputBuffer p) →
  (if isFrameAvailable (_buffer p) (_kernelBufferSize p)
   then (kernel_drain p).2
          = [IsFrameAvailable (_kernelBufferSize p);
             Pull HeapInput (_kernelBufferSize p);
             KernelProcess (_channelCount p);
             Push HeapOutput (_kernelBufferSize p)]
        ∧ kernel_invocations (kernel_drain p).2 = 1
        ∧ (∃ input,
             length input = length (channelData (_buffer p))
             ∧ (∀ ch chan, channelData (_buffer p) !! ch = Some chan →
                  input !! ch
                    = Some (take (_kernelBufferSize p) (held (_buffer p) chan))
                  ∧ length (take (_kernelBufferSize p) (held (_buffer p) chan))
                    = _kernelBufferSize p)
             ∧ (_kernel (kernel_drain p).1, _heapOutputBuffer (kernel_drain p).1)
                 = kernel_process (_kernel p) input (_channelCount p))
        ∧ _buffer (kernel_drain p).1
            = push (pull (_buffer p) (_heapInputBuffer p) (_kernelBufferSize p)).1
                   (_heapOutputBuffer (kernel_drain p).1) (_kernelBufferSize p)
        ∧ _kernelBufferSize p ≤ framesAvailable (_buffer (kernel_drain p).1)
   else kernel_drain p = (p, [IsFrameAvailable (_kernelBufferSize p)]))
  ∧ kernel_invocations (kernel_drain p).2 ≤ 1
  ∧ framesAvailable (_buffer (kernel_drain p).1) = framesAvailable (_buffer p).
Proof.
  intros Hwf [Hlen Hshape].
  pose proof (kernel_drain_count p (wf_count _ Hwf)) as Hcount.
  pose proof (kernel_drain_calls p) as Hcalls.
  split_and!;
    [|rewrite Hcalls; destruct (isFrameAvailable _ _); cbv; lia|done].
  destruct (isFrameAvailable _ _) eqn:Hav;
    [|by unfold kernel_drain; rewrite Hav].
  split_and!; [done|by rewrite Hcalls| | |].
  - exists (pull (_buffer p) (_heapInputBuffer p) (_kernelBufferSize p)).2.
    split_and!.
    + by rewrite length_pull.
    + intros ch chan Hl.
      assert (Hk : _kernelBufferSize p ≤ count (_buffer p))
        by by apply bool_decide_eq_true in Hav.
      assert (Htake : length (take (_kernelBufferSize p) (held (_buffer p) chan))
                      = _kernelBufferSize p).
      { rewrite length_take. unfold held. rewrite length_window. lia. }
      split; [|done].
      destruct (lookup_lt_is_Some_2 (_heapInputBuffer p) ch) as [dst Hd].
      { rewrite Hlen. by apply lookup_lt_Some in Hl. }
      rewrite (pull_destination (_buffer p) _ (_kernelBufferSize p) _ _ _ Hl Hd).
      apply (Forall_lookup_1 _ _ _ _ Hshape) in Hd. f_equal.
      rewrite Hd, drop_ge, app_nil_r by lia.
      replace (_kernelBufferSize p - count (_buffer p)) with 0 by lia.
      cbn [replicate]. rewrite app_nil_r. apply take_ge. lia.
    + unfold kernel_drain. rewrite Hav.
      destruct (pull _ _ _) as [b heapIn]. cbn [snd].
      destruct (kernel_process _ _ _) as [k heapOut] eqn:Hk.
      cbn [fst _kernel _heapOutputBuffer]. done.
  - unfold kernel_drain. rewrite Hav.
    destruct (pull _ _ _) as [b heapIn] eqn:Hp.
    destruct (kernel_process _ _ _) as [k heapOut] eqn:Hk.
    cbn [fst snd _buffer _heapOutputBuffer]. done.
  - unfold framesAvailable. rewrite Hcount. by apply bool_decide_eq_true in Hav.
Qed.

Lemma host_pull_calls (p : state K A) output :
  (host_pull p output).2 = [Pull HostOutput (_kernelBufferSize p)].
Proof. unfold host_pull. by destruct (pull _ _ _). Qed.

Lemma host_pull_buffer (p : state K A) output :
  _buffer (host_pull p output).1.1
    = (pull (_buffer p) output (_kernelBufferSize p)).1.
Proof. unfold host_pull. by destruct (pull _ _ _). Qed.

Lemma process_calls (p : state K A) inputs outputs r :
  process p inputs outputs = Some r →
  ∃ input,
    inputs !! 0 = Some input ∧
    calls r =
      [Push HostInput (_kernelBufferSize p); IsFrameAvailable (_kernelBufferSize p)]
      ++ (if isFrameAvailable (push (_buffer p) input (_kernelBufferSize p))
                              (_kernelBufferSize p)
          then [Pull HeapInput (_kernelBufferSize p);
                KernelProcess (_channelCount p);
                Push HeapOutput (_kernelBufferSize p)]
          else [])
      ++ [Pull HostOutput (_kernelBufferSize p)].
Proof.
  intros Hr.
  destruct (inputs !! 0) as [input|] eqn:Hi;
    [|by unfold process in Hr; rewrite Hi in Hr].
  destruct (outputs !! 0) as [output|] eqn:Ho;
    [|by unfold process in Hr; rewrite Hi, Ho in Hr].
  rewrite (process_unfold _ _ _ _ _ Hi Ho) in Hr. injection Hr as <-.
  exists input. split; [done|]. cbn [calls].
  rewrite kernel_drain_size, kernel_drain_calls. done.
Qed.

(** C9.  A call of [process] asks the one shared buffer to take in as
    many frames as it asks it to give out: one push and one pull of K
    frames on the host path, and one more pull and push of K frames when
    the kernel branch runs.  When the first push does not overflow, the
    count of held frames after the call is the count before it. *)
Theorem process_balanced (p : state K A) inputs outputs input output :
  inputs !! 0 = Some input → outputs !! 0 = Some output →
  ∃ r, process p inputs outputs = Some r
    ∧ calls r =
        [Push HostInput (_kernelBufferSize p); IsFrameAvailable (_kernelBufferSize p)]
        ++ (if isFrameAvailable (push (_buffer p) input (_kernelBufferSize p))
                                (_kernelBufferSize p)
            then [Pull HeapInput (_kernelBufferSize p);
                  KernelProcess (_channelCount p);
                  Push HeapOutput (_kernelBufferSize p)]
            else [])
        ++ [Pull HostOutput (_kernelBufferSize p)]
    ∧ frames_pushed (calls r) = frames_pulled (calls r)
    ∧ (count (_buffer p) + _kernelBufferSize p ≤ capacity (_buffer p) →
       framesAvailable (_buffer (next r)) = framesAvailable (_buffer p)).
Proof.
  intros Hi Ho. eexists. split; [by apply process_unfold|].
  destruct (process_calls p inputs outputs _ (process_unfold _ _ _ _ _ Hi Ho))
    as (input' & Hi' & Hcalls).
  rewrite Hi in Hi'. injection Hi' as <-.
  split_and!; [done| |].
  - rewrite Hcalls. destruct (isFrameAvailable _ _); cbv; lia.
  - intros Hfit. cbn [next]. unfold framesAvailable.
    rewrite host_pull_buffer, kernel_drain_size.
    cbn [pull fst count]. rewrite kernel_drain_count.
    + cbn [host_push fst with_buffer _buffer _kernelBufferSize push count]. lia.
    + cbn [host_push fst with_buffer _buffer push count capacity]. lia.
Qed.

End RingBufferFacts.

(** ** Both processors *)

Section ReturnValue.
Context `{Sample A} `{Synthesizer Syn A} `{VariableBufferKernel K A}.
Variable getChannelData : FreeQueue A → list A.
Variable setChannelData : FreeQueue A → list A → FreeQueue A.

(** C8.  Neither [process] function ever returns anything but [true]:
    each call that reaches its return statement returns [true], and each
    call reaches it whenever the host passes the arrays the function
    indexes ([outputs[0][0]], large enough for the rendered block, for
    the synthesizer; [inputs[0]] and [outputs[0]] for the ring-buffer
    processor). *)
Theorem process_returns_true :
  (∀ (p : SynthProcessor.state Syn A) inputs outputs output outputBuffer,
     outputs !! 0 = Some output → output !! 0 = Some outputBuffer →
     length (getChannelData (SynthProcessor._combinedBuffer p)) ≤ length outputBuffer →
     ∃ r, SynthProcessor.process getChannelData setChannelData p inputs outputs = Some r
          ∧ returned r = true)
  ∧ (∀ (p : SynthProcessor.state Syn A) inputs outputs r,
       SynthProcessor.process getChannelData setChannelData p inputs outputs = Some r →
       returned r = true)
  ∧ (∀ (p : RingBufferWorkletProcessor.state K A) inputs outputs input output,
       inputs !! 0 = Some input → outputs !! 0 = Some output →
       ∃ r, RingBufferWorkletProcessor.process p inputs outputs = Some r
            ∧ returned r = true)
  ∧ (∀ (p : RingBufferWorkletProcessor.state K A) inputs outputs r,
       RingBufferWorkletProcessor.process p inputs outputs = Some r →
       returned r = true).
Proof.
  split_and!.
  - intros p inputs outputs output outputBuffer Ho Hb Hfit.
    destruct (SynthProcessor_process_completes getChannelData setChannelData
                p inputs outputs output outputBuffer Ho Hb Hfit) as [r Hr].
    exists r. split; [done|]. by eapply SynthProcessor_process_returned.
  - intros p inputs outputs r. apply SynthProcessor_process_returned.
  - intros p inputs outputs input output Hi Ho.
    eexists. split; [by apply process_unfold|done].
  - intros p inputs outputs r. apply process_returned.
Qed.

End ReturnValue.

(** ** The model at work *)

Lemma wf_stale_queue : wf stale_queue.
Proof. split; simpl; [lia|repeat constructor|lia|done|lia]. Qed.

Lemma FreeQueue_fifo_round_trip_witness :
  (pull (push_all stale_queue [(ramp 1 2, 2); (ramp 3 1, 1)]) (silence 3) 3).2
    = [[Level 1; Level 2; Level 3]]
  ∧ framesAvailable
      (pull (push_all stale_queue [(ramp 1 2, 2); (ramp 3 1, 1)]) (silence 3) 3).1 = 0.
Proof.
  apply (FreeQueue_fifo_round_trip stale_queue [(ramp 1 2, 2); (ramp 3 1, 1)] (silence 3)).
  - exact wf_stale_queue.
  - reflexivity.
  - repeat constructor.
  - vm_compute. lia.
  - repeat constructor.
Defined.

Lemma FreeQueue_pull_underrun_witness :
  (pull (push stale_queue (ramp 1 2) 2) [[Level 5; Level 5; Level 5; Level 5; Level 5]] 4).2
    !! 0 = Some [Level 1; Level 2; Level 0; Level 0; Level 5].
Proof.
  refine (proj1 (FreeQueue_pull_underrun (push stale_queue (ramp 1 2) 2)
                   [[Level 5; Level 5; Level 5; Level 5; Level 5]] 4 0
                   [Level 2; Level 9; Level 9; Level 1]
                   [Level 5; Level 5; Level 5; Level 5; Level 5] _ _ _ _)).
  - apply wf_push, wf_stale_queue.
  - vm_compute. lia.
  - reflexivity.
  - reflexivity.
Defined.

(** C7, as stated, fails: on a buffer of capacity 4, one pull of 3 frames
    followed by one push of 3 frames leaves 3 frames available, while
    [N·P − M·Q] clamped to [[0, capacity]] is 0. *)
Lemma FreeQueue_count_not_clamped_balance :
  Z.of_nat (framesAvailable
              (run 3 3 (newFreeQueue 4 1) [OpPull (silence 3); OpPush (ramp 1 3)])) = 3%Z
  ∧ clamped_balance 3 3 4 [OpPull (silence 3); OpPush (ramp 1 3)] = 0%Z
  ∧ Z.of_nat (framesAvailable
                (run 3 3 (newFreeQueue 4 1) [OpPull (silence 3); OpPush (ramp 1 3)]))
    ≠ clamped_balance 3 3 4 [OpPull (silence 3); OpPush (ramp 1 3)].
Proof. vm_compute. split_and!; done. Qed.

Lemma FreeQueue_count_clamped_stepwise_witness :
  framesAvailable (run 3 2 (newFreeQueue (A:=pcm) 4 1)
                     [OpPush (ramp 1 3); OpPull (silence 2); OpPush (ramp 4 3)]) = 4
  ∧ framesAvailable (run 3 2 (newFreeQueue (A:=pcm) 4 1)
                       [OpPush (ramp 1 3); OpPull (silence 2)]) + 1 * 2 = 0 + 1 * 3.
Proof.
  split.
  - refine (proj1 (FreeQueue_count_clamped_stepwise (newFreeQueue (A:=pcm) 4 1) 3 2
                     [OpPush (ramp 1 3); OpPull (silence 2); OpPush (ramp 4 3)] _)).
    apply wf_newFreeQueue. lia.
  - refine (proj1 (proj2 (proj2
              (FreeQueue_count_clamped_stepwise (newFreeQueue (A:=pcm) 4 1) 3 2
                 [OpPush (ramp 1 3); OpPull (silence 2)] _))) _).
    + apply wf_newFreeQueue. lia.
    + reflexivity.
Defined.

(** C3, as stated, fails.  On the processor the constructor builds for
    K = 4 and one channel, after the host push of a call of [process] the
    drain step finds 4 frames available, invokes the kernel once and stops,
    although [framesAvailable() ≥ K] holds again when it ends: the step
    does not repeat as long as K frames are available. *)
Lemma kernel_drain_not_a_loop :
  RingBufferWorkletProcessor.constructor
    {| RingBufferWorkletProcessor.kernelBufferSize := 4;
       RingBufferWorkletProcessor.channelCount := 1 |} = Some (fresh 4 1)
  ∧ (let p := (RingBufferWorkletProcessor.host_push (fresh 4 1) (ramp 1 4)).1 in
     let r := RingBufferWorkletProcessor.kernel_drain p in
     framesAvailable (RingBufferWorkletProcessor._buffer p) = 4
     ∧ RingBufferWorkletProcessor.kernel_invocations r.2 = 1
     ∧ framesAvailable (RingBufferWorkletProcessor._buffer r.1) = 4
     ∧ isFrameAvailable (RingBufferWorkletProcessor._buffer r.1) 4 = true
     ∧ ¬ framesAvailable (RingBufferWorkletProcessor._buffer r.1) < 4).
Proof. vm_compute. split_and!; try done; lia. Qed.

Lemma kernel_drain_single_conditional_witness :
  RingBufferWorkletProcessor.kernel_invocations
    (RingBufferWorkletProcessor.kernel_drain
       (RingBufferWorkletProcessor.host_push (fresh 4 1) (ramp 1 4)).1).2 ≤ 1
  ∧ framesAvailable
      (RingBufferWorkletProcessor._buffer
         (RingBufferWorkletProcessor.kernel_drain
            (RingBufferWorkletProcessor.host_push (fresh 4 1) (ramp 1 4)).1).1) = 4.
Proof.
  refine (proj2 (kernel_drain_single_conditional
                   (RingBufferWorkletProcessor.host_push (fresh 4 1) (ramp 1 4)).1 _ _)).
  - apply wf_push, wf_newFreeQueue. simpl. lia.
  - repeat constructor.
Defined.

Lemma process_balanced_witness :
  ∃ r, RingBufferWorkletProcessor.process (fresh 4 1) [ramp 1 4] [silence 4] = Some r
    ∧ RingBufferWorkletProcessor.frames_pushed (calls r)
      = RingBufferWorkletProcessor.frames_pulled (calls r)
    ∧ framesAvailable (RingBufferWorkletProcessor._buffer (next r)) = 0.
Proof.
  destruct (process_balanced (fresh 4 1) [ramp 1 4] [silence 4] (ramp 1 4) (silence 4)
              eq_refl eq_refl) as (r & Hr & _ & Hbal & Hcount).
  exists r. split_and!; [exact Hr|exact Hbal|].
  apply Hcount. vm_compute. lia.
Defined.

Lemma process_returns_true_witness :
  (∃ r, SynthProcessor.process first_channel set_first_channel
          (SynthProcessor.constructor (A:=pcm) []) [] [silence 128] = Some r
        ∧ returned r = true)
  ∧ (∃ r, RingBufferWorkletProcessor.process (fresh 4 1) [ramp 1 4] [silence 4] = Some r
          ∧ returned r = true).
Proof.
  destruct (process_returns_true (A:=pcm) (Syn:=list SynthProcessor.Call) (K:=nat)
              first_channel set_first_channel) as (Hsynth & _ & Hring & _).
  split.
  - apply (Hsynth _ [] [silence 128] (silence 128) (replicate 128 (Level 0)));
      [reflexivity|reflexivity|vm_compute; lia].
  - apply (Hring _ [ramp 1 4] [silence 4] (ramp 1 4) (silence 4)); reflexivity.
Defined.

(** C4 fails on the code.  With K = 512 and a host block of 128 frames, the
    first call of [process] is a push with frame count 512, and the buffer
    then reports 512 frames where the host delivered 128. *)
Lemma process_first_push_is_kernel_sized :
  (head ∘ calls) <$> RingBufferWorkletProcessor.process (fresh 512 1) [ramp 0 128] [silence 128]
    = Some (Some (RingBufferWorkletProcessor.Push RingBufferWorkletProcessor.HostInput 512))
  ∧ framesAvailable
      (RingBufferWorkletProcessor._buffer
         (RingBufferWorkletProcessor.host_push (fresh 512 1) (ramp 0 128)).1) = 512.
Proof. vm_compute. done. Qed.

(** C5 fails on the code.  With K = 512 the last call of [process] is a
    pull with frame count 512 into the host's 128-frame output block: the
    buffer is emptied of all 512 frames it held before that pull. *)
Lemma process_last_pull_is_kernel_sized :
  (last ∘ calls) <$> RingBufferWorkletProcessor.process (fresh 512 1) [ramp 0 128] [silence 128]
    = Some (Some (RingBufferWorkletProcessor.Pull RingBufferWorkletProcessor.HostOutput 512))
  ∧ framesAvailable
      (RingBufferWorkletProcessor._buffer
         (RingBufferWorkletProcessor.kernel_drain
            (RingBufferWorkletProcessor.host_push (fresh 512 1) (ramp 0 128)).1).1) = 512
  ∧ (λ r, framesAvailable (RingBufferWorkletProcessor._buffer (next r)))
      <$> RingBufferWorkletProcessor.process (fresh 512 1) [ramp 0 128] [silence 128]
    = Some 0
  ∧ (λ r, length <$> outputs_after r !! 0 ≫= (.!! 0))
      <$> RingBufferWorkletProcessor.process (fresh 512 1) [ramp 0 128] [silence 128]
    = Some (Some 128).
Proof. vm_compute. done. Qed.

(** C6 fails on the code.  With H = 128 and K = 512, on the processor as
    constructed and on one whose buffer has capacity 640, every one of the
    first four cycles invokes the kernel once, and every output block is the
    kernel's output for the input block of the same cycle: no cycle is
    silent and there is no latency of 384 frames. *)
Lemma scenario_H128_K512_kernel_runs_every_cycle :
  (λ r, RingBufferWorkletProcessor.kernel_invocations r.2)
    <$> RingBufferWorkletProcessor.cycles (fresh 512 1) four_host_blocks = [1; 1; 1; 1]
  ∧ fst <$> RingBufferWorkletProcessor.cycles (fresh 512 1) four_host_blocks
    = (λ b : list (list pcm), (λ s : list pcm, boost <$> s) <$> b) <$> four_host_blocks
  ∧ (λ r, RingBufferWorkletProcessor.kernel_invocations r.2)
      <$> RingBufferWorkletProcessor.cycles (roomy 512 1 640) four_host_blocks = [1; 1; 1; 1]
  ∧ fst <$> RingBufferWorkletProcessor.cycles (roomy 512 1 640) four_host_blocks
    = (λ b : list (list pcm), (λ s : list pcm, boost <$> s) <$> b) <$> four_host_blocks.
Proof. vm_compute. done. Qed.

Lemma SynthProcessor_playTone_examples :
  (SynthProcessor._playTone (SynthProcessor.constructor (A:=pcm) [])
     {| data := JSBoolean true |}).2 = [SynthProcessor.NoteOn 60]
  ∧ (SynthProcessor._playTone (SynthProcessor.constructor (A:=pcm) [])
       {| data := JSNumber (S754_zero false) |}).2 = [SynthProcessor.NoteOff 60]
  ∧ (SynthProcessor._playTone (SynthProcessor.constructor (A:=pcm) [])
       {| data := JSNumber (S754_finite false 9 3) |}).2 = [SynthProcessor.NoteOn 60]
  ∧ (SynthProcessor._playTone (SynthProcessor.constructor (A:=pcm) [])
       {| data := JSBigInt 0 |}).2 = [SynthProcessor.NoteOff 60].
Proof. done. Qed.


(** ** The ring-buffer processor from one render quantum to the next *)

Section SteadyState.
Context `{Sample A} `{VariableBufferKernel K A}.
Import RingBufferWorkletProcessor.

Local Abbreviation block := (list (list A)).

Lemma pull_destination_outside (q : FreeQueue A) destination n ch :
  channelData q !! ch = None →
  (pull q destination n).2 !! ch = destination !! ch.
Proof.
  intros Hl. cbn [pull snd]. rewrite list_lookup_imap.
  destruct (destination !! ch); [|done]. cbn [fmap option_fmap option_map].
  by rewrite Hl.
Qed.

Lemma held_empty (q : FreeQueue A) chan : count q = 0 → held q chan = [].
Proof. intros Hemp. unfold held, window. by rewrite Hemp. Qed.

Lemma push_pull_empty (q : FreeQueue A) source destination n :
  wf q → count q = 0 → n ≤ capacity q →
  (pull (push q source n) destination n).2
    = delivered (length (channelData q)) n source destination
  ∧ wf (pull (push q source n) destination n).1
  ∧ count (pull (push q source n) destination n).1 = 0
  ∧ capacity (pull (push q source n) destination n).1 = capacity q
  ∧ length (channelData (pull (push q source n) destination n).1)
    = length (channelData q).
Proof.
  intros Hwf Hemp Hn. split_and!.
  - apply list_eq. intros ch. unfold delivered. rewrite list_lookup_imap.
    destruct (decide (ch < length (channelData q))) as [Hlt|Hge].
    + destruct (lookup_lt_is_Some_2 _ _ Hlt) as [chan Hl].
      destruct (held_push q source n ch chan) as (chan' & Hl' & Hh'); [done|lia|done|].
      destruct (destination !! ch) as [dst|] eqn:Hd.
      * rewrite (pull_destination _ _ _ _ _ _ Hl' Hd).
        cbn [fmap option_fmap option_map]. f_equal.
        destruct (decide (ch < length (channelData q))); [|lia].
        rewrite Hh', (held_empty q chan Hemp), app_nil_l.
        rewrite (take_ge (frames _ _)) by (rewrite length_frames; lia).
        replace (n - count (push q source n)) with 0
          by (cbn [push count]; lia).
        by rewrite app_nil_r.
      * cbn [fmap option_fmap option_map].
        apply lookup_ge_None. rewrite length_pull. by apply lookup_ge_None.
    + rewrite pull_destination_outside.
      * destruct (destination !! ch); [|done]. cbn [fmap option_fmap option_map].
        destruct (decide (ch < length (channelData q))); [lia|done].
      * apply lookup_ge_None. cbn [push channelData]. rewrite length_imap. lia.
  - by apply wf_pull, wf_push.
  - cbn [pull push fst count]. lia.
  - done.
  - cbn [pull push fst channelData]. by rewrite length_imap.
Qed.

Lemma length_staged c n (source : block) : length (staged c n source) = c.
Proof. unfold staged. by rewrite length_fmap, length_seq. Qed.

Lemma staged_shape c n (source : block) : block_shape c n (staged c n source).
Proof.
  split; [apply length_staged|]. unfold staged.
  apply Forall_fmap, Forall_forall. intros ch _. apply length_frames.
Qed.

Lemma delivered_shaped c n (source destination : block) :
  block_shape c n destination → delivered c n source destination = staged c n source.
Proof.
  intros [Hlen Hsh]. apply list_eq. intros ch. unfold delivered, staged.
  rewrite list_lookup_imap, list_lookup_fmap.
  destruct (decide (ch < c)) as [Hlt|Hge].
  - rewrite lookup_seq_lt by done.
    destruct (lookup_lt_is_Some_2 destination ch) as [dst Hd]; [lia|].
    rewrite Hd. cbn [fmap option_fmap option_map Nat.add]. f_equal.
    apply (Forall_lookup_1 _ _ _ _ Hsh) in Hd.
    rewrite Hd, drop_ge, app_nil_r by lia.
    apply take_ge. rewrite length_frames. lia.
  - rewrite lookup_seq_ge by lia.
    rewrite (lookup_ge_None_2 destination) by lia. done.
Qed.

Lemma kernel_drain_steady (p : state K A) input :
  steady p →
  kernel_drain (host_push p input).1 =
    ({| _kernelBufferSize := _kernelBufferSize p;
        _channelCount := _channelCount p;
        _buffer :=
          push (pull (push (_buffer p) input (_kernelBufferSize p))
                     (_heapInputBuffer p) (_kernelBufferSize p)).1
               (kernel_process (_kernel p)
                  (staged (_channelCount p) (_kernelBufferSize p) input)
                  (_channelCount p)).2
               (_kernelBufferSize p);
        _heapInputBuffer := staged (_channelCount p) (_kernelBufferSize p) input;
        _heapOutputBuffer :=
          (kernel_process (_kernel p)
             (staged (_channelCount p) (_kernelBufferSize p) input)
             (_channelCount p)).2;
        _kernel :=
          (kernel_process (_kernel p)
             (staged (_channelCount p) (_kernelBufferSize p) input)
             (_channelCount p)).1 |},
     [IsFrameAvailable (_kernelBufferSize p); Pull HeapInput (_kernelBufferSize p);
      KernelProcess (_channelCount p); Push HeapOutput (_kernelBufferSize p)]).
Proof.
  intros [Hwf Hemp Hroom Hch Hst].
  destruct (push_pull_empty (_buffer p) input (_heapInputBuffer p)
              (_kernelBufferSize p) Hwf Hemp Hroom) as (Hout & _).
  rewrite Hch, (delivered_shaped _ _ _ _ Hst) in Hout.
  unfold kernel_drain, host_push.
  cbn [fst with_buffer _buffer _kernelBufferSize _channelCount _heapInputBuffer _kernel].
  assert (Hav : isFrameAvailable (push (_buffer p) input (_kernelBufferSize p))
                                 (_kernelBufferSize p) = true).
  { apply bool_decide_eq_true. unfold framesAvailable. cbn [push count]. lia. }
  rewrite Hav.
  destruct (pull (push (_buffer p) input (_kernelBufferSize p))
                 (_heapInputBuffer p) (_kernelBufferSize p)) as [b2 heapIn] eqn:E.
  cbn [snd] in Hout. subst heapIn. cbn [fst].
  by destruct (kernel_process _ _ _).
Qed.

Lemma process_steady (p : state K A) inputs outputs input output :
  steady p → inputs !! 0 = Some input → outputs !! 0 = Some output →
  ∃ r, process p inputs outputs = Some r
    ∧ steady (next r)
    ∧ _kernelBufferSize (next r) = _kernelBufferSize p
    ∧ _channelCount (next r) = _channelCount p
    ∧ _heapInputBuffer (next r)
      = staged (_channelCount p) (_kernelBufferSize p) input
    ∧ (_kernel (next r), _heapOutputBuffer (next r))
      = kernel_process (_kernel p)
          (staged (_channelCount p) (_kernelBufferSize p) input) (_channelCount p)
    ∧ outputs_after r
      = <[0 := delivered (_channelCount p) (_kernelBufferSize p)
                         (_heapOutputBuffer (next r)) output]> outputs
    ∧ calls r
      = [Push HostInput (_kernelBufferSize p); IsFrameAvailable (_kernelBufferSize p);
         Pull HeapInput (_kernelBufferSize p); KernelProcess (_channelCount p);
         Push HeapOutput (_kernelBufferSize p); Pull HostOutput (_kernelBufferSize p)].
Proof.
  intros Hst Hi Ho. eexists. split; [by apply process_unfold|].
  cbn [next outputs_after calls].
  rewrite (kernel_drain_steady p input Hst). cbn [fst snd].
  destruct Hst as [Hwf Hemp Hroom Hch Hstage].
  destruct (push_pull_empty (_buffer p) input (_heapInputBuffer p)
              (_kernelBufferSize p) Hwf Hemp Hroom) as (_ & Hwf2 & Hemp2 & Hcap2 & Hlen2).
  set (b2 := (pull (push (_buffer p) input (_kernelBufferSize p))
                   (_heapInputBuffer p) (_kernelBufferSize p)).1) in *.
  set (kh := kernel_process (_kernel p)
               (staged (_channelCount p) (_kernelBufferSize p) input)
               (_channelCount p)).
  destruct (push_pull_empty b2 kh.2 output (_kernelBufferSize p) Hwf2 Hemp2)
    as (Hout & Hwf4 & Hemp4 & Hcap4 & Hlen4); [lia|].
  unfold host_pull.
  cbn [_buffer _kernelBufferSize _channelCount _heapInputBuffer _heapOutputBuffer _kernel].
  destruct (pull (push b2 kh.2 (_kernelBufferSize p)) output (_kernelBufferSize p))
    as [b4 output'] eqn:E.
  cbn [fst snd] in *. subst output'.
  unfold with_buffer, host_push.
  cbn [_buffer _kernelBufferSize _channelCount _heapInputBuffer
       _heapOutputBuffer _kernel snd app].
  split_and!; try done.
  - split; cbn [_buffer _kernelBufferSize _channelCount _heapInputBuffer];
      [done|done|lia|lia|apply staged_shape].
  - by destruct kh.
  - by rewrite Hlen2, Hch.
Qed.

End SteadyState.

Section RingBufferExtras.
Context `{Sample A} `{VariableBufferKernel K A}.
Import RingBufferWorkletProcessor.

Local Abbreviation block := (list (list A)).

Lemma staged_id c n (source : block) :
  block_shape c n source → staged c n source = source.
Proof.
  intros [Hlen Hsh]. apply list_eq. intros ch. unfold staged.
  rewrite list_lookup_fmap.
  destruct (decide (ch < c)) as [Hlt|Hge].
  - rewrite lookup_seq_lt by done.
    destruct (lookup_lt_is_Some_2 source ch) as [s Hs]; [lia|].
    cbn [fmap option_fmap option_map Nat.add]. rewrite Hs. f_equal.
    apply (Forall_lookup_1 _ _ _ _ Hsh) in Hs. cbn [from_option id].
    rewrite frames_take by lia. apply take_ge. lia.
  - rewrite lookup_seq_ge by lia. symmetry. apply lookup_ge_None. lia.
Qed.

Lemma steady_built (options : ProcessorOptions) :
  0 < kernelBufferSize options → steady (built (K:=K) options).
Proof.
  intros Hpos.
  split; cbn [built _buffer _kernelBufferSize _channelCount _heapInputBuffer].
  - by apply wf_newFreeQueue.
  - done.
  - done.
  - cbn [newFreeQueue channelData]. by rewrite length_replicate.
  - split; [by rewrite length_replicate|].
    apply Forall_replicate. by rewrite length_replicate.
Qed.

Lemma constructor_Some (options : ProcessorOptions) (p : state K A) :
  constructor options = Some p →
  p = built options
  ∧ (kernelBufferSize options * channelCount options) `mod` 4 = 0
  ∧ (5 * N.of_nat (kernelBufferSize options * channelCount options)
       ≤ memory_byteLength)%N.
Proof.
  unfold constructor, Float32Array_fits. intros Hp.
  destruct (bool_decide (0 `mod` 4 = 0)
            && bool_decide (N.of_nat 0 + 4 * N.of_nat _ ≤ memory_byteLength)%N
            && (bool_decide (_ `mod` 4 = 0)
                && bool_decide (N.of_nat _ + 4 * N.of_nat _ ≤ memory_byteLength)%N))
    eqn:Hfits; [|done].
  injection Hp as <-.
  apply andb_prop in Hfits as [_ Hout]. apply andb_prop in Hout as [Hal Hb].
  apply bool_decide_eq_true in Hal. apply bool_decide_eq_true in Hb.
  split_and!; [done|done|lia].
Qed.

(** X1.  The constructor raises a RangeError exactly when
    [kernelBufferSize * channelCount], the byte offset of the output view,
    is not a multiple of 4, or when the two views do not fit into the
    module's memory (the output view ends
    [5 * kernelBufferSize * channelCount] bytes in).  When it returns a
    processor, for a positive kernel block size, the buffer is well formed
    and empty, of capacity [kernelBufferSize] with one storage array per
    channel, and each view holds [kernelBufferSize * channelCount]
    samples: the state every render quantum starts from. *)
Theorem constructor_steady (options : ProcessorOptions) :
  (constructor (K:=K) (A:=A) options = None ↔
     (kernelBufferSize options * channelCount options) `mod` 4 ≠ 0
     ∨ (memory_byteLength
          < 5 * N.of_nat (kernelBufferSize options * channelCount options))%N)
  ∧ ∀ p : state K A,
      constructor options = Some p → 0 < kernelBufferSize options →
      steady p
      ∧ _kernelBufferSize p = kernelBufferSize options
      ∧ _channelCount p = channelCount options
      ∧ capacity (_buffer p) = kernelBufferSize options
      ∧ framesAvailable (_buffer p) = 0
      ∧ sum_list (length <$> _heapInputBuffer p)
        = channelCount options * kernelBufferSize options
      ∧ sum_list (length <$> _heapOutputBuffer p)
        = channelCount options * kernelBufferSize options.
Proof.
  split.
  - unfold constructor, Float32Array_fits.
    rewrite (bool_decide_eq_true_2 (0 `mod` 4 = 0)) by done.
    destruct (decide ((kernelBufferSize options * channelCount options) `mod` 4 = 0))
      as [Hal|Hal];
      [rewrite (bool_decide_eq_true_2 _ Hal)|rewrite (bool_decide_eq_false_2 _ Hal)].
    + destruct (decide (N.of_nat (kernelBufferSize options * channelCount options)
                        + 4 * N.of_nat (kernelBufferSize options * channelCount options)
                        ≤ memory_byteLength)%N) as [Hb|Hb].
      * rewrite (bool_decide_eq_true_2 _ Hb).
        rewrite bool_decide_eq_true_2 by lia. cbn [andb].
        split; [done|]. intros [?|?]; [done|lia].
      * rewrite (bool_decide_eq_false_2 _ Hb), !andb_false_r.
        split; [|done]. intros _. right. lia.
    + rewrite andb_false_r. split; [|done]. intros _. by left.
  - intros p Hp Hpos.
    destruct (constructor_Some options p Hp) as (-> & _ & _).
    assert (Hsum : ∀ c n, sum_list (length <$> replicate c (replicate n (zero (A:=A))))
                          = c * n).
    { intros c n. by rewrite fmap_replicate, length_replicate, sum_list_replicate. }
    split_and!; try done; [by apply steady_built|apply Hsum..].
Qed.

(** X2.  One render quantum from the steady state.  The call invokes the
    kernel exactly once, on the first K frames of every channel of the host
    input (padded where the input is shorter); the host output receives the
    kernel's output of this same call in its first K slots; and the buffer
    is empty again afterwards, the processor being back in the steady
    state.  With input, output and kernel output of K frames per channel,
    the kernel reads the host input itself and the host output is the
    kernel's output. *)
Theorem process_steady_cycle (p : state K A) inputs outputs input output :
  steady p → inputs !! 0 = Some input → outputs !! 0 = Some output →
  ∃ r, process p inputs outputs = Some r
    ∧ kernel_invocations (calls r) = 1
    ∧ (_kernel (next r), _heapOutputBuffer (next r))
      = kernel_process (_kernel p)
          (staged (_channelCount p) (_kernelBufferSize p) input) (_channelCount p)
    ∧ outputs_after r !! 0
      = Some (delivered (_channelCount p) (_kernelBufferSize p)
                        (_heapOutputBuffer (next r)) output)
    ∧ framesAvailable (_buffer (next r)) = 0
    ∧ steady (next r)
    ∧ (block_shape (_channelCount p) (_kernelBufferSize p) input →
       block_shape (_channelCount p) (_kernelBufferSize p) output →
       block_shape (_channelCount p) (_kernelBufferSize p) (_heapOutputBuffer (next r)) →
       (_kernel (next r), _heapOutputBuffer (next r))
         = kernel_process (_kernel p) input (_channelCount p)
       ∧ outputs_after r !! 0 = Some (_heapOutputBuffer (next r))).
Proof.
  intros Hst Hi Ho.
  destruct (process_steady p inputs outputs input output Hst Hi Ho)
    as (r & Hr & Hst' & HK & Hc & Hin & Hk & Hout & Hcalls).
  exists r. split_and!; try done.
  - by rewrite Hcalls.
  - rewrite Hout. apply list_lookup_insert_eq. by apply lookup_lt_Some in Ho.
  - apply (steady_empty _ Hst').
  - intros Hsi Hso Hsk. split.
    + by rewrite Hk, (staged_id _ _ _ Hsi).
    + rewrite Hout, list_lookup_insert_eq by by apply lookup_lt_Some in Ho.
      f_equal. rewrite (delivered_shaped _ _ _ _ Hso). by apply staged_id.
Qed.

(** X3.  Render quantum after render quantum, a processor in the steady
    state is the kernel applied to each host block on its own: every cycle
    invokes the kernel exactly once, no cycle is skipped, and the output
    blocks are those of [direct_cycles], which involves no buffer. *)
Theorem cycles_direct (host_blocks : list block) : ∀ p : state K A,
  steady p →
  fst <$> cycles p host_blocks
    = direct_cycles (_channelCount p) (_kernelBufferSize p) (_kernel p) host_blocks
  ∧ Forall (λ r, kernel_invocations r.2 = 1) (cycles p host_blocks)
  ∧ length (cycles p host_blocks) = length host_blocks.
Proof.
  induction host_blocks as [|input rest IH]; intros p Hst; [done|].
  destruct (process_steady p [input]
              [(λ s : list A, replicate (length s) zero) <$> input]
              input _ Hst eq_refl eq_refl)
    as (r & Hr & Hst' & HK & Hc & Hin & Hk & Hout & Hcalls).
  destruct (IH (next r) Hst') as (IH1 & IH2 & IH3).
  cbn [cycles direct_cycles]. rewrite Hr.
  rewrite HK, Hc in IH1.
  assert (Hk1 : _kernel (next r)
                = (kernel_process (_kernel p)
                     (staged (_channelCount p) (_kernelBufferSize p) input)
                     (_channelCount p)).1) by by rewrite <- Hk.
  assert (Hk2 : _heapOutputBuffer (next r)
                = (kernel_process (_kernel p)
                     (staged (_channelCount p) (_kernelBufferSize p) input)
                     (_channelCount p)).2) by by rewrite <- Hk.
  split_and!.
  - rewrite fmap_cons, IH1, Hk1. f_equal.
    cbn [fst]. rewrite Hout, Hk2. done.
  - apply Forall_cons. split; [by rewrite Hcalls|done].
  - cbn [length]. by rewrite IH3.
Qed.

Lemma host_pull_state (p : state K A) output :
  (host_pull p output).1.1
    = with_buffer p (pull (_buffer p) output (_kernelBufferSize p)).1.
Proof. unfold host_pull. by destruct (pull _ _ _). Qed.

Lemma kernel_drain_invariant (p : state K A) :
  wf (_buffer p) →
  wf (_buffer (kernel_drain p).1)
  ∧ capacity (_buffer (kernel_drain p).1) = capacity (_buffer p)
  ∧ length (channelData (_buffer (kernel_drain p).1)) = length (channelData (_buffer p))
  ∧ _channelCount (kernel_drain p).1 = _channelCount p.
Proof.
  intros Hwf. unfold kernel_drain.
  destruct (isFrameAvailable _ _); [|done].
  destruct (pull _ _ _) as [b heapIn] eqn:E.
  destruct (kernel_process _ _ _) as [k heapOut].
  cbn [fst _buffer _channelCount].
  assert (Hb : b = (pull (_buffer p) (_heapInputBuffer p) (_kernelBufferSize p)).1)
    by by rewrite E.
  split_and!.
  - apply wf_push. rewrite Hb. by apply wf_pull.
  - by rewrite Hb.
  - rewrite Hb. cbn [push pull fst channelData]. by rewrite length_imap.
  - done.
Qed.

(** X4.  A call of [process] keeps the processor's configuration and the
    buffer's invariant, from any state: the kernel block size and the
    channel count do not change, the buffer keeps its capacity and its
    channel arrays, and it is well formed afterwards if it was before
    (count within the capacity, indices within bounds and consistent). *)
Theorem process_preserves_invariant (p : state K A) inputs outputs r :
  wf (_buffer p) → process p inputs outputs = Some r →
  wf (_buffer (next r))
  ∧ capacity (_buffer (next r)) = capacity (_buffer p)
  ∧ length (channelData (_buffer (next r))) = length (channelData (_buffer p))
  ∧ _kernelBufferSize (next r) = _kernelBufferSize p
  ∧ _channelCount (next r) = _channelCount p.
Proof.
  intros Hwf Hr.
  destruct (inputs !! 0) as [input|] eqn:Hi;
    [|by unfold process in Hr; rewrite Hi in Hr].
  destruct (outputs !! 0) as [output|] eqn:Ho;
    [|by unfold process in Hr; rewrite Hi, Ho in Hr].
  rewrite (process_unfold _ _ _ _ _ Hi Ho) in Hr. apply (inj Some) in Hr. subst r.
  cbn [next].
  destruct (kernel_drain_invariant (host_push p input).1) as (Hwf2 & Hcap2 & Hlen2 & Hc2).
  { cbn [host_push fst with_buffer _buffer]. by apply wf_push. }
  pose proof (kernel_drain_size (host_push p input).1) as HK2.
  rewrite host_pull_state. unfold with_buffer at 1 2 3 4 5.
  cbn [_buffer _kernelBufferSize _channelCount].
  split_and!.
  - by apply wf_pull.
  - cbn [pull fst capacity]. by rewrite Hcap2.
  - cbn [pull fst channelData]. rewrite Hlen2.
    cbn [host_push fst with_buffer _buffer push channelData]. by rewrite length_imap.
  - by rewrite HK2.
  - by rewrite Hc2.
Qed.

Lemma length_pull_channel (q : FreeQueue A) destination n ch :
  length <$> (pull q destination n).2 !! ch = length <$> destination !! ch.
Proof.
  cbn [pull snd]. rewrite list_lookup_imap.
  destruct (destination !! ch) as [dst|]; [|done].
  cbn [fmap option_fmap option_map]. f_equal.
  destruct (channelData q !! ch); [|done]. apply length_read_frames.
Qed.

Lemma host_pull_output (p : state K A) output :
  (host_pull p output).1.2 = (pull (_buffer p) output (_kernelBufferSize p)).2.
Proof. unfold host_pull. by destruct (pull _ _ _). Qed.

(** X5.  Only the first input and the first output take part in a call of
    [process]: further inputs are ignored, every output but the first is
    left as it was, and the first output keeps its number of channels and
    the length of each channel. *)
Theorem process_first_port_only (p : state K A) inputs outputs r :
  process p inputs outputs = Some r →
  process p (take 1 inputs) outputs = Some r
  ∧ length (outputs_after r) = length outputs
  ∧ (∀ i, i ≠ 0 → outputs_after r !! i = outputs !! i)
  ∧ ∃ output output',
      outputs !! 0 = Some output ∧ outputs_after r !! 0 = Some output'
      ∧ length output' = length output
      ∧ ∀ ch, length <$> output' !! ch = length <$> output !! ch.
Proof.
  intros Hr.
  destruct (inputs !! 0) as [input|] eqn:Hi;
    [|by unfold process in Hr; rewrite Hi in Hr].
  destruct (outputs !! 0) as [output|] eqn:Ho;
    [|by unfold process in Hr; rewrite Hi, Ho in Hr].
  assert (Hi' : take 1 inputs !! 0 = Some input).
  { rewrite lookup_take. by destruct (decide (0 < 1)); [|lia]. }
  rewrite (process_unfold _ _ _ _ _ Hi' Ho).
  rewrite (process_unfold _ _ _ _ _ Hi Ho) in Hr. apply (inj Some) in Hr. subst r.
  cbn [outputs_after]. split_and!.
  - done.
  - apply length_insert.
  - intros i Hne. by apply list_lookup_insert_ne.
  - eexists _, _. split_and!; [done| | |].
    + apply list_lookup_insert_eq. by apply lookup_lt_Some in Ho.
    + rewrite host_pull_output. apply length_pull.
    + intros ch. rewrite host_pull_output. apply length_pull_channel.
Qed.

(** X10.  The threshold test never holds a block back.  Whatever the buffer
    holds, a call of [process] invokes the kernel exactly once when the
    buffer's capacity is at least K and not at all otherwise, and it leaves
    [min (count + K) capacity − K] frames in the buffer, never more than it
    found. *)
Theorem process_kernel_every_call (p : state K A) inputs outputs r :
  wf (_buffer p) → process p inputs outputs = Some r →
  kernel_invocations (calls r)
    = (if decide (_kernelBufferSize p ≤ capacity (_buffer p)) then 1 else 0)
  ∧ framesAvailable (_buffer (next r))
    = (count (_buffer p) + _kernelBufferSize p) `min` capacity (_buffer p)
      - _kernelBufferSize p
  ∧ framesAvailable (_buffer (next r)) ≤ framesAvailable (_buffer p).
Proof.
  intros Hwf Hr. pose proof (wf_count _ Hwf) as Hc.
  destruct (process_calls p inputs outputs r Hr) as (input & Hi & Hcalls).
  destruct (outputs !! 0) as [output|] eqn:Ho;
    [|by unfold process in Hr; rewrite Hi, Ho in Hr].
  rewrite (process_unfold _ _ _ _ _ Hi Ho) in Hr. apply (inj Some) in Hr.
  assert (Hcount : framesAvailable (_buffer (next r))
                   = (count (_buffer p) + _kernelBufferSize p) `min` capacity (_buffer p)
                     - _kernelBufferSize p).
  { subst r. cbn [next]. unfold framesAvailable.
    rewrite host_pull_state. unfold with_buffer at 1. cbn [_buffer].
    rewrite kernel_drain_size. cbn [pull fst count].
    rewrite kernel_drain_count.
    - cbn [host_push fst with_buffer _buffer _kernelBufferSize push count]. lia.
    - cbn [host_push fst with_buffer _buffer push count capacity]. lia. }
  split_and!; [|done|unfold framesAvailable in *; lia].
  rewrite Hcalls. unfold isFrameAvailable, framesAvailable. cbn [push count].
  destruct (decide (_kernelBufferSize p ≤ capacity (_buffer p))).
  - rewrite bool_decide_eq_true_2 by lia. cbv. lia.
  - rewrite bool_decide_eq_false_2 by lia. cbv. lia.
Qed.

End RingBufferExtras.

Section SynthProcessorExtras.
Context `{Sample A} `{Synthesizer Syn A}.
Variable getChannelData : FreeQueue A → list A.
Variable setChannelData : FreeQueue A → list A → FreeQueue A.

Local Abbreviation process := (SynthProcessor.process getChannelData setChannelData).

(** X6.  [SynthProcessor.process] raises, instead of returning, in exactly
    two cases: the host passes no first channel of a first output, or that
    channel is shorter than the sample storage the synthesizer renders
    into. *)
Theorem SynthProcessor_process_raises_iff (p : SynthProcessor.state Syn A) inputs outputs :
  process p inputs outputs = None ↔
    outputs !! 0 ≫= (.!! 0) = None
    ∨ ∃ outputBuffer,
        outputs !! 0 ≫= (.!! 0) = Some outputBuffer
        ∧ length outputBuffer < length (getChannelData (SynthProcessor._combinedBuffer p)).
Proof.
  unfold SynthProcessor.process.
  destruct (outputs !! 0) as [output|]; cbn [mbind option_bind]; [|by split; [left|]].
  destruct (output !! 0) as [outputBuffer|]; cbn [mbind option_bind];
    [|by split; [left|]].
  pose proof (render_length (SynthProcessor._freeQueue p)
                (getChannelData (SynthProcessor._combinedBuffer p))
                SynthProcessor.NUM_FRAMES) as Hlen.
  destruct (render _ _ _) as [synth rendered]. cbn [snd] in Hlen.
  unfold SynthProcessor.typed_array_set.
  destruct (decide (length rendered ≤ length outputBuffer)) as [Hfit|Hfit];
    cbn [mbind option_bind].
  - split; [done|]. intros [?|(ob & [= <-] & Hshort)]; [done|lia].
  - split; [|done]. intros _. right. exists outputBuffer. split; [done|lia].
Qed.

(** X7.  When [SynthProcessor.process] returns, it has made one call on the
    synthesizer, [render] for 128 frames, whatever the inputs were; the
    first channel of the first output starts with the rendered samples,
    keeps its length and its samples beyond them; and every other channel
    and every other output is as it was. *)
Theorem SynthProcessor_process_output (p : SynthProcessor.state Syn A) inputs outputs r :
  process p inputs outputs = Some r →
  ∃ output outputBuffer,
    outputs !! 0 = Some output ∧ output !! 0 = Some outputBuffer
    ∧ calls r = [SynthProcessor.Render 128]
    ∧ SynthProcessor._freeQueue (next r)
      = (render (SynthProcessor._freeQueue p)
           (getChannelData (SynthProcessor._combinedBuffer p)) 128).1
    ∧ (∃ tail,
         outputs_after r !! 0 ≫= (.!! 0)
           = Some ((render (SynthProcessor._freeQueue p)
                      (getChannelData (SynthProcessor._combinedBuffer p)) 128).2 ++ tail)
         ∧ length ((render (SynthProcessor._freeQueue p)
                      (getChannelData (SynthProcessor._combinedBuffer p)) 128).2 ++ tail)
           = length outputBuffer
         ∧ tail = drop (length (getChannelData (SynthProcessor._combinedBuffer p)))
                       outputBuffer)
    ∧ (∀ ch, ch ≠ 0 → outputs_after r !! 0 ≫= (.!! ch) = output !! ch)
    ∧ (∀ i, i ≠ 0 → outputs_after r !! i = outputs !! i)
    ∧ process p [] outputs = Some r.
Proof.
  unfold SynthProcessor.process. intros Hr.
  destruct (outputs !! 0) as [output|] eqn:Ho; cbn [mbind option_bind] in *; [|done].
  destruct (output !! 0) as [outputBuffer|] eqn:Hb; cbn [mbind option_bind] in *; [|done].
  pose proof (render_length (SynthProcessor._freeQueue p)
                (getChannelData (SynthProcessor._combinedBuffer p))
                SynthProcessor.NUM_FRAMES) as Hlen.
  change SynthProcessor.NUM_FRAMES with 128 in *.
  destruct (render _ _ _) as [synth rendered] eqn:Hrender. cbn [fst snd] in *.
  unfold SynthProcessor.typed_array_set in *.
  destruct (decide (length rendered ≤ length outputBuffer)) as [Hfit|Hfit];
    cbn [mbind option_bind] in *; [|done].
  pose proof Hr as Hr'. injection Hr as <-. cbn [next outputs_after calls].
  assert (H0o : 0 < length outputs) by by apply lookup_lt_Some in Ho.
  assert (H0b : 0 < length output) by by apply lookup_lt_Some in Hb.
  exists output, outputBuffer. split_and!; try done.
  - exists (drop (length rendered) outputBuffer). split_and!.
    + rewrite list_lookup_insert_eq by done. cbn [mbind option_bind].
      by rewrite list_lookup_insert_eq.
    + rewrite length_app, length_drop. lia.
    + by rewrite Hlen.
  - intros ch Hne. rewrite list_lookup_insert_eq by done. cbn [mbind option_bind].
    by rewrite list_lookup_insert_ne.
  - intros i Hne. by rewrite list_lookup_insert_ne.
Qed.

(** X8.  Messages compose: after any sequence of messages the synthesizer
    has received exactly one note call per message, in the order of
    arrival, [noteOn(60)] for a truthy payload and [noteOff(60)] for a
    falsy one, and the frame buffer is the one from before the messages. *)
Theorem onmessage_log (events : list MessageEvent) : ∀ p : SynthProcessor.state Syn A,
  (onmessage p events).2
    = (λ e, if ToBoolean (data e)
            then SynthProcessor.NoteOn 60 else SynthProcessor.NoteOff 60) <$> events
  ∧ SynthProcessor._freeQueue (onmessage p events).1
    = foldl (λ s e, if ToBoolean (data e) then noteOn s 60 else noteOff s 60)
            (SynthProcessor._freeQueue p) events
  ∧ SynthProcessor._combinedBuffer (onmessage p events).1
    = SynthProcessor._combinedBuffer p.
Proof.
  induction events as [|e events IH] using rev_ind; intros p; [done|].
  destruct (IH p) as (IH1 & IH2 & IH3).
  unfold onmessage in *. rewrite foldl_snoc, fmap_snoc, foldl_snoc.
  destruct (foldl _ (p, []) events) as [p' log]. cbn [fst snd] in *.
  unfold SynthProcessor._playTone.
  destruct (ToBoolean (data e)); cbn [fst snd SynthProcessor._freeQueue
                                       SynthProcessor._combinedBuffer];
    by rewrite IH1, IH2, IH3.
Qed.

(** X9.  The handler turns the note off for exactly these payloads:
    [undefined], [null], [false], the numbers +0 and -0, NaN, the BigInt
    zero and the empty string; every other payload (any other number or
    BigInt, any non-empty string, the string 'false' included, and any
    object) turns note 60 on. *)
Theorem playTone_noteOff_iff_falsy (p : SynthProcessor.state Syn A) event :
  ((SynthProcessor._playTone p event).2 = [SynthProcessor.NoteOff 60]
     ↔ data event ∈ falsy)
  ∧ ((SynthProcessor._playTone p event).2 = [SynthProcessor.NoteOn 60]
     ↔ data event ∉ falsy).
Proof.
  unfold SynthProcessor._playTone, falsy.
  rewrite !elem_of_cons, elem_of_nil.
  destruct event as [v]. cbn [data].
  destruct v as [| |[]|[[]|[]| |sg m e]|n|[|a s]|]; cbn [ToBoolean snd negb];
    try (destruct (Z.eqb_spec n 0) as [->|Hn]; cbn [negb]);
    (split; split; intros Hx); first [done | intuition congruence].
Qed.

End SynthProcessorExtras.


(** ** The extra properties at work *)

Lemma steady_fresh : steady (fresh 4 1).
Proof. apply steady_built. simpl. lia. Qed.

Lemma wf_fresh : wf (RingBufferWorkletProcessor._buffer (fresh 4 1)).
Proof. apply wf_newFreeQueue. simpl. lia. Qed.

Lemma fresh_constructed :
  RingBufferWorkletProcessor.constructor
    {| RingBufferWorkletProcessor.kernelBufferSize := 4;
       RingBufferWorkletProcessor.channelCount := 1 |} = Some (fresh 4 1)
  ∧ RingBufferWorkletProcessor.constructor
      {| RingBufferWorkletProcessor.kernelBufferSize := 512;
         RingBufferWorkletProcessor.channelCount := 1 |} = Some (fresh 512 1)
  ∧ RingBufferWorkletProcessor.constructor (K:=nat) (A:=pcm)
      {| RingBufferWorkletProcessor.kernelBufferSize := 2;
         RingBufferWorkletProcessor.channelCount := 1 |} = None.
Proof. vm_compute. done. Qed.

Lemma constructor_steady_witness :
  steady (fresh 4 1)
  ∧ capacity (RingBufferWorkletProcessor._buffer (fresh 4 1)) = 4.
Proof.
  destruct (proj2 (constructor_steady (K:=nat) (A:=pcm)
                     {| RingBufferWorkletProcessor.kernelBufferSize := 4;
                        RingBufferWorkletProcessor.channelCount := 1 |})
              (fresh 4 1))
    as (Hst & _ & _ & Hcap & _); [reflexivity|simpl; lia|].
  split; [exact Hst|exact Hcap].
Defined.

Lemma process_steady_cycle_witness :
  ∃ r, RingBufferWorkletProcessor.process (fresh 4 1) [ramp 1 4] [silence 4] = Some r
    ∧ RingBufferWorkletProcessor.kernel_invocations (calls r) = 1
    ∧ framesAvailable (RingBufferWorkletProcessor._buffer (next r)) = 0.
Proof.
  destruct (process_steady_cycle (fresh 4 1) [ramp 1 4] [silence 4] (ramp 1 4) (silence 4)
              steady_fresh eq_refl eq_refl) as (r & Hr & Hk & _ & _ & Hemp & _).
  exists r. split_and!; [exact Hr|exact Hk|exact Hemp].
Defined.

Lemma cycles_direct_witness :
  fst <$> RingBufferWorkletProcessor.cycles (fresh 4 1) [ramp 1 4; ramp 5 4]
    = [[[Level 1001; Level 1002; Level 1003; Level 1004]];
       [[Level 1005; Level 1006; Level 1007; Level 1008]]].
Proof.
  rewrite (proj1 (cycles_direct [ramp 1 4; ramp 5 4] (fresh 4 1) steady_fresh)).
  reflexivity.
Defined.

Lemma process_preserves_invariant_witness :
  ∃ r, RingBufferWorkletProcessor.process (fresh 4 1) [ramp 1 4] [silence 4] = Some r
    ∧ wf (RingBufferWorkletProcessor._buffer (next r))
    ∧ capacity (RingBufferWorkletProcessor._buffer (next r)) = 4.
Proof.
  destruct (RingBufferWorkletProcessor.process (fresh 4 1) [ramp 1 4] [silence 4])
    as [r|] eqn:E; [|by vm_compute in E].
  exists r. split; [reflexivity|].
  destruct (process_preserves_invariant (fresh 4 1) _ _ r wf_fresh E) as (Hwf & Hcap & _).
  split; [exact Hwf|]. rewrite Hcap. reflexivity.
Defined.

Lemma process_first_port_only_witness :
  ∃ r, RingBufferWorkletProcessor.process (fresh 4 1)
         [ramp 1 4; ramp 7 4] [silence 4; ramp 9 4] = Some r
    ∧ RingBufferWorkletProcessor.process (fresh 4 1) [ramp 1 4] [silence 4; ramp 9 4] = Some r
    ∧ outputs_after r !! 1 = Some (ramp 9 4).
Proof.
  destruct (RingBufferWorkletProcessor.process (fresh 4 1)
              [ramp 1 4; ramp 7 4] [silence 4; ramp 9 4]) as [r|] eqn:E;
    [|by vm_compute in E].
  exists r. split; [reflexivity|].
  destruct (process_first_port_only (fresh 4 1) _ _ r E) as (Hfirst & _ & Hrest & _).
  split; [exact Hfirst|]. rewrite Hrest by lia. reflexivity.
Defined.

Lemma SynthProcessor_process_output_witness :
  ∃ r, SynthProcessor.process first_channel set_first_channel
         (SynthProcessor.constructor (A:=pcm) []) [ramp 1 2] [silence 130; ramp 9 2] = Some r
    ∧ calls r = [SynthProcessor.Render 128]
    ∧ outputs_after r !! 1 = Some (ramp 9 2).
Proof.
  destruct (SynthProcessor.process first_channel set_first_channel
              (SynthProcessor.constructor (A:=pcm) []) [ramp 1 2] [silence 130; ramp 9 2])
    as [r|] eqn:E; [|by vm_compute in E].
  exists r. split; [reflexivity|].
  destruct (SynthProcessor_process_output first_channel set_first_channel _ _ _ r E)
    as (output & outputBuffer & _ & _ & Hcalls & _ & _ & _ & Hrest & _).
  split; [exact Hcalls|]. rewrite Hrest by lia. reflexivity.
Defined.

Lemma SynthProcessor_process_raises_examples :
  SynthProcessor.process first_channel set_first_channel
    (SynthProcessor.constructor (A:=pcm) []) [] [] = None
  ∧ SynthProcessor.process first_channel set_first_channel
      (SynthProcessor.constructor (A:=pcm) []) [] [silence 64] = None
  ∧ is_Some (SynthProcessor.process first_channel set_first_channel
               (SynthProcessor.constructor (A:=pcm) []) [] [silence 128]).
Proof. vm_compute. split_and!; try done. by eexists. Qed.

Lemma process_kernel_every_call_witness :
  ∃ r, RingBufferWorkletProcessor.process (fresh 4 1) [ramp 1 4] [silence 4] = Some r
    ∧ RingBufferWorkletProcessor.kernel_invocations (calls r) = 1
    ∧ framesAvailable (RingBufferWorkletProcessor._buffer (next r)) = 0.
Proof.
  destruct (RingBufferWorkletProcessor.process (fresh 4 1) [ramp 1 4] [silence 4])
    as [r|] eqn:E; [|by vm_compute in E].
  exists r. split; [reflexivity|].
  destruct (process_kernel_every_call (fresh 4 1) _ _ r wf_fresh E) as (Hk & Hcount & _).
  split; [exact Hk|exact Hcount].
Defined.
